(** * TACO utilities and kit selection: a shallow embedding

    The development follows the TypeScript sources of the TACO command-line
    toolchain:

    - [UtilHelper] embeds the static methods of [TacoUtility.UtilHelper]
      (taco-utils): [tacoHome], [copyFile], [isValidCordovaAppName],
      [invalidAppNameCharacters], [quotesAroundIfNecessary],
      [cleanseOptions] and [isPathValid];
    - [UtilHelperIO] embeds its methods on files and directories:
      [readFileContentsSync], [copyRecursive] and
      [createDirectoryIfNecessary];
    - [TSCInvoker] embeds the TypeScript build hook (tsc-invoker.js):
      [getProjectTypescriptFiles] and [composeCompileCommand];
    - [SimpleFs] is a small file system to run [isPathValid] on;
    - [Kit] models the [kit] command of taco-cli, whose implementation is
      not part of the sources at hand, from the specification;
    - [KitTest] embeds the expectations and the checks of the mocha suite
      of that command (taco-cli/test/kit.ts).

    Definitions come first ([Spec] holds the vocabulary of the
    statements), the statements about them afterwards. *)

From Stdlib Require Import ZArith NArith List String Ascii Bool Lia.
From stdpp Require Import gmap strings list fin_maps.

Local Open Scope string_scope.
Local Open Scope list_scope.

(** ** JavaScript strings as sequences of UTF-16 code units *)

Module JsString.

(** [charCodeAt] yields a code unit; a string is the list of its units. *)
Definition jsstring := list N.

(** The units of a literal (all below 256). *)
Definition js (s : string) : jsstring :=
  map N_of_ascii (list_ascii_of_string s).

Definition dquote : N := 34%N.
Definition backslash : N := 92%N.
Definition space : N := 32%N.

(** A string is truthy when it is not empty. *)
Definition truthy (s : jsstring) : bool :=
  match s with [] => false | _ :: _ => true end.

(** [s.indexOf(c)] for a one-unit needle: first position or -1. *)
Fixpoint indexOfFrom (c : N) (s : jsstring) (i : Z) : Z :=
  match s with
  | [] => (-1)%Z
  | x :: r => if (x =? c)%N then i else indexOfFrom c r (i + 1)%Z
  end.

Definition indexOf (s : jsstring) (c : N) : Z := indexOfFrom c s 0%Z.

(** [s.replace(/c/g, by)] for a one-unit pattern. *)
Fixpoint replaceAll (c : N) (by_ : jsstring) (s : jsstring) : jsstring :=
  match s with
  | [] => []
  | x :: r =>
      if (x =? c)%N then by_ ++ replaceAll c by_ r
      else x :: replaceAll c by_ r
  end.

End JsString.

(** ** TacoUtility.UtilHelper: string helpers *)

Module UtilHelper.
Import JsString.

(** The private table [InvalidAppNameChars]: an object whose keys are
    char codes and whose values are one-character strings.  The keys of
    such an object enumerate in ascending numeric order. *)
Definition InvalidAppNameChars : list (N * jsstring) :=
  [ (34%N, [34%N]);      (* 34: the double quote *)
    (36%N, js "$");
    (38%N, js "&");
    (39%N, js "/");
    (60%N, js "<");
    (92%N, [92%N]) ].    (* 92: the backslash *)

(** [InvalidAppNameChars[code]]: the value, or undefined. *)
Definition InvalidAppNameChars_get (code : N) : option jsstring :=
  snd <$> find (fun kv => (fst kv =? code)%N) InvalidAppNameChars.

(** Truthiness of a possibly undefined string. *)
Definition truthy_opt (v : option jsstring) : bool :=
  match v with Some s => truthy s | None => false end.

(** [isValidCordovaAppName]: the loop over the code units returns false
    at the first unit below 32 or present in the table. *)
Fixpoint isValidCordovaAppName (str : jsstring) : bool :=
  match str with
  | [] => true
  | code :: rest =>
      if (code <? 32)%N || truthy_opt (InvalidAppNameChars_get code)
      then false
      else isValidCordovaAppName rest
  end.

(** [invalidAppNameCharacters]: the table's values, in key order. *)
Definition invalidAppNameCharacters : list jsstring :=
  map (fun c => default [] (InvalidAppNameChars_get c))
      (map fst InvalidAppNameChars).

(** [quotesAroundIfNecessary]. *)
Definition quotesAroundIfNecessary (input : jsstring) : jsstring :=
  if (-1 <? indexOf input space)%Z
  then [dquote] ++ replaceAll dquote [backslash; dquote] input ++ [dquote]
  else input.

(** *** Errors

    [tacoErrorCodes] and [tacoErrorHelper] are imported by the module but
    are not part of the sources at hand.  The codes are the error kinds
    the specification lists; [wrap] builds the structured error out of a
    code, the inner error and the contextual arguments. *)

Inductive TacoErrorCode :=
| InvalidKit
| InvalidVersion
| ManifestNotFound
| ManifestParseError
| FailedFileRead
| FailedFileWrite
| FailedRecursiveCopy
| UnexpectedPlatform.

Definition code_eqb (a b : TacoErrorCode) : bool :=
  match a, b with
  | InvalidKit, InvalidKit
  | InvalidVersion, InvalidVersion
  | ManifestNotFound, ManifestNotFound
  | ManifestParseError, ManifestParseError
  | FailedFileRead, FailedFileRead
  | FailedFileWrite, FailedFileWrite
  | FailedRecursiveCopy, FailedRecursiveCopy
  | UnexpectedPlatform, UnexpectedPlatform => true
  | _, _ => false
  end.

(** What JavaScript throws: a plain [Error], a [TypeError], or a system
    error carrying a [code] such as ENOENT. *)
Inductive JsError :=
| Error (message : string)
| TypeError (message : string)
| SystemError (code : string).

Record TacoError := mkTacoError {
  errorCode : TacoErrorCode;
  innerError : JsError;
  errorArgs : list string
}.

(** Modelled from the spec: [errorHelper.wrap(code, innerError, ...args)]
    of tacoErrorHelper, absent from the sources; a structured error
    carrying an error code and contextual data. *)
Definition wrap (code : TacoErrorCode) (e : JsError) (args : list string)
  : TacoError :=
  mkTacoError code e args.

(** A call either returns or throws. *)
Inductive completion (A : Type) :=
| Normal (a : A)
| Throw (e : JsError).
Arguments Normal {A} a.
Arguments Throw {A} e.

(** *** tacoHome *)

Section TacoHome.
(** [path.join] of two strings (node's [path] module). *)
Variable path_join : string -> string -> string.

(** [path.join(process.env[name], leaf)]: joining [undefined] throws. *)
Definition join_env (v : option string) (leaf : string)
  : completion string :=
  match v with
  | Some dir => Normal (path_join dir leaf)
  | None => Throw (TypeError "Arguments to path.join must be strings")
  end.

(** The [switch (os.platform())] of the accessor. *)
Definition tacoHome_default (env : gmap string string) (platform : string)
  : completion string :=
  if String.eqb platform "win32" then
    join_env (env !! "APPDATA") "taco_home"
  else if String.eqb platform "darwin" || String.eqb platform "linux" then
    join_env (env !! "HOME") ".taco_home"
  else Throw (Error "UnexpectedPlatform").

(** The accessor, over [process.env] and [os.platform()]: the guard
    [if (process.env["TACO_HOME"])] holds for a defined, non-empty
    value. *)
Definition tacoHome (env : gmap string string) (platform : string)
  : completion string :=
  match env !! "TACO_HOME" with
  | Some home =>
      if String.eqb home "" then tacoHome_default env platform
      else Normal home
  | None => tacoHome_default env platform
  end.
End TacoHome.

(** *** copyFile

    The promise of a [Q.defer()]: settled at most once, later calls of
    [resolve] and [reject] are ignored. *)
Inductive promise (A E : Type) :=
| Pending
| Fulfilled (a : A)
| Rejected (e : E).
Arguments Pending {A E}.
Arguments Fulfilled {A E} a.
Arguments Rejected {A E} e.

Definition resolve {A E} (d : promise A E) (a : A) : promise A E :=
  match d with Pending => Fulfilled a | _ => d end.

Definition reject {A E} (d : promise A E) (e : E) : promise A E :=
  match d with Pending => Rejected e | _ => d end.

(** The events the two streams of [copyFile] can emit: [newFile] is the
    write stream on [to], [oldFile] the read stream on [from]. *)
Inductive StreamEvent :=
| NewFileFinish
| NewFileError (e : JsError)
| OldFileError (e : JsError).

(** The three listeners [copyFile] registers. *)
Definition copyFile_on (from to : string)
    (deferred : promise unit TacoError) (ev : StreamEvent)
  : promise unit TacoError :=
  match ev with
  | NewFileFinish => resolve deferred tt
  | NewFileError e => reject deferred (wrap FailedFileRead e [to])
  | OldFileError e => reject deferred (wrap FailedFileWrite e [from])
  end.

(** The promise [copyFile(from, to)] returned, after the streams emitted
    [events] in this order. *)
Definition copyFile (from to : string) (events : list StreamEvent)
  : promise unit TacoError :=
  fold_left (copyFile_on from to) events Pending.

(** *** cleanseOptions

    Objects live in a heap and are handled through references, so that
    the statement that the input dictionary is left alone has a meaning:
    the loop writes through the reference [cleansed] only. *)
Section CleanseOptions.
Context {V : Type}.

Abbreviation heap := (gmap positive (gmap string V)).

(** The [exclude] argument: an array, or [null], or [undefined]. *)
Inductive exclusion :=
| Undefined
| Null
| Array (names : list string).

(** [exclude.indexOf(opt)]: first position or -1. *)
Fixpoint array_indexOf (names : list string) (opt : string) (i : Z) : Z :=
  match names with
  | [] => (-1)%Z
  | x :: r => if String.eqb x opt then i else array_indexOf r opt (i + 1)%Z
  end.

(** The guard [!exclude || exclude.indexOf(opt) < 0]. *)
Definition kept (exclude : exclusion) (opt : string) : bool :=
  match exclude with
  | Undefined | Null => true
  | Array names => (array_indexOf names opt 0 <? 0)%Z
  end.

(** [var cleansed = {}]: a fresh reference bound to the empty object. *)
Definition new_object (h : heap) : heap * positive :=
  let r := fresh (dom h) in (<[r := ∅]> h, r).

(** [o[k]] *)
Definition get_prop (h : heap) (o : positive) (k : string) : option V :=
  h !! o ≫= fun fields => fields !! k.

(** [o[k] = v] *)
Definition set_prop (h : heap) (o : positive) (k : string) (v : V) : heap :=
  <[o := <[k := v]> (default ∅ (h !! o))]> h.

(** The keys [for (var opt in options)] visits. *)
Definition for_in_keys (h : heap) (o : positive) : list string :=
  (map_to_list (default ∅ (h !! o))).*1.

(** One iteration of the loop body. *)
Definition cleanse_step (options cleansed : positive) (exclude : exclusion)
    (h : heap) (opt : string) : heap :=
  if kept exclude opt then
    match get_prop h options opt with
    | Some v => set_prop h cleansed opt v
    | None => h
    end
  else h.

(** [cleanseOptions(options, exclude)]: the heap afterwards and the
    reference returned. *)
Definition cleanseOptions (h : heap) (options : positive)
    (exclude : exclusion) : heap * positive :=
  let '(h0, cleansed) := new_object h in
  (fold_left (cleanse_step options cleansed exclude)
             (for_in_keys h0 options) h0,
   cleansed).
End CleanseOptions.

(** *** isPathValid

    The function talks to the operating system through [fs], [path],
    [os], [crypto] and [rimraf].  The file system is an interface: a
    state, and the calls the function makes on it. *)

Class FileSystem (FS : Type) := {
  (** [fs.existsSync(p)] *)
  existsSync : FS -> string -> bool;
  (** [fs.mkdirSync(p)]: the state afterwards, and the [code] of the
      error thrown, if any. *)
  mkdirSync : FS -> string -> FS * option string;
  (** [rimraf(p, callback)], once it has completed; its error goes to
      the callback. *)
  rimraf : FS -> string -> FS
}.

(** [path.sep] and [path.join] of the platform's [path] module. *)
Class Path := {
  sep : ascii;
  join : string -> string -> string
}.

(** [s.split(sep)] for a one-character separator: never empty. *)
Fixpoint split (c : ascii) (s : string) : list string :=
  match s with
  | EmptyString => [EmptyString]
  | String x r =>
      if Ascii.eqb x c then EmptyString :: split c r
      else match split c r with
           | h :: t => String x h :: t
           | [] => [String x EmptyString]
           end
  end.

Definition is_letter (x : ascii) : bool :=
  let n := nat_of_ascii x in
  ((65 <=? n)%nat && (n <=? 90)%nat) || ((97 <=? n)%nat && (n <=? 122)%nat).

(** [/^[a-zA-Z]:$/.test(segment)] *)
Definition is_drive_letter (segment : string) : bool :=
  match segment with
  | String x (String y EmptyString) => is_letter x && Ascii.eqb y ":"
  | _ => false
  end.

(** One call of [fs.mkdirSync] made by the probe: the segment, the path
    handed to [mkdirSync], and the error code thrown, if any. *)
Record attempt := mkAttempt {
  att_segment : string;
  att_path : string;
  att_error : option string
}.

(** The state the callback of [some] closes over, and what it logs. *)
Record probe (FS : Type) := mkProbe {
  hasInvalidSegments : bool;
  currentPath : string;
  probe_fs : FS;
  attempts : list attempt
}.
Arguments mkProbe {FS}.
Arguments hasInvalidSegments {FS}.
Arguments currentPath {FS}.
Arguments probe_fs {FS}.
Arguments attempts {FS}.

Section IsPathValid.
Context {FS : Type} `{FileSystem FS} `{Path}.

(** The [while] loop picking the scratch directory's name: the first
    of the names [crypto.pseudoRandomBytes(20).toString("hex")] yields
    that does not exist under [tmpDir]; [None] when every name of
    [names] exists (the loop is still running). *)
Definition pick_testDir (fs : FS) (tmpDir : string) (names : list string)
  : option string :=
  find (fun testDir => negb (existsSync fs (join tmpDir testDir))) names.

(** [pathToTest.split(path.sep).some(callback)]: the callback runs on
    the segments in order, from [index], until it returns true. *)
Fixpoint some_segment (platform : string) (segments : list string)
    (index : nat) (cur : string) (fs : FS) (log : list attempt)
  : probe FS :=
  match segments with
  | [] => mkProbe false cur fs log
  | segment :: rest =>
      if (index =? 0)%nat && String.eqb platform "win32"
         && is_drive_letter segment
      then some_segment platform rest (S index) cur fs log
      else
        let nextPath := join cur segment in
        match mkdirSync fs nextPath with
        | (fs', None) =>
            some_segment platform rest (S index) nextPath fs'
              (log ++ [mkAttempt segment nextPath None])
        | (fs', Some code) =>
            let log' := log ++ [mkAttempt segment nextPath (Some code)] in
            if String.eqb code "ENOENT"
            then mkProbe true cur fs' log'
            else some_segment platform rest (S index) cur fs' log'
        end
  end.

(** How a call of [isPathValid] ends. *)
Inductive outcome :=
| Returned (valid : bool) (scratch : string) (removed : string)
           (fs : FS) (log : list attempt)
  (** the value returned, the scratch directory, the path handed to
      [rimraf], the file system once [rimraf] has completed, and the
      calls of [mkdirSync] on the segments *)
| Threw (code : string) (fs : FS)
  (** [fs.mkdirSync] of the scratch directory itself threw *)
| Looping.
  (** no unused name among the random names drawn so far *)

Definition isPathValid (fs : FS) (tmpDir platform : string)
    (names : list string) (pathToTest : string) : outcome :=
  match pick_testDir fs tmpDir names with
  | None => Looping
  | Some testDir =>
      let scratch := join tmpDir testDir in
      match mkdirSync fs scratch with
      | (fs1, Some code) => Threw code fs1
      | (fs1, None) =>
          let p := some_segment platform (split sep pathToTest) 0
                                scratch fs1 [] in
          Returned (negb (hasInvalidSegments p)) scratch (currentPath p)
                   (rimraf (probe_fs p) (currentPath p)) (attempts p)
      end
  end.
End IsPathValid.

End UtilHelper.

(** ** A small file system to run [isPathValid] on

    Directories are a list of paths.  [mkdirSync] fails with EEXIST on an
    existing path, with ENOENT on a name the system rejects or under a
    missing parent, and creates the directory otherwise; [rimraf] removes
    a directory and everything below it. *)

Module SimpleFs.
Import UtilHelper.

Section Simple.
Variable sepc : ascii.
(** The names the system rejects. *)
Variable bad_name : string -> bool.

Definition sep_string : string := String sepc EmptyString.

Fixpoint concat_with (l : list string) : string :=
  match l with
  | [] => EmptyString
  | [x] => x
  | x :: r => x +:+ sep_string +:+ concat_with r
  end.

Definition basename (p : string) : string :=
  List.last (split sepc p) EmptyString.

Definition dirname (p : string) : string :=
  concat_with (removelast (split sepc p)).

Definition simple_join (a b : string) : string :=
  if String.eqb b "" || String.eqb b "." then a
  else if String.eqb b ".." then dirname a
  else a +:+ sep_string +:+ b.

Definition has (dirs : list string) (p : string) : bool :=
  existsb (String.eqb p) dirs.

Definition simple_mkdir (dirs : list string) (p : string)
  : list string * option string :=
  if has dirs p then (dirs, Some "EEXIST")
  else if bad_name (basename p) then (dirs, Some "ENOENT")
  else if has dirs (dirname p) then (dirs ++ [p], None)
  else (dirs, Some "ENOENT").

Definition below (p d : string) : bool :=
  String.eqb d p || String.prefix (p +:+ sep_string) d.

Definition simple_rimraf (dirs : list string) (p : string) : list string :=
  List.filter (fun d => negb (below p d)) dirs.

Definition simple_fs : FileSystem (list string) :=
  {| existsSync := has; mkdirSync := simple_mkdir; rimraf := simple_rimraf |}.

Definition simple_path : Path :=
  {| sep := sepc; join := simple_join |}.
End Simple.

(** Names with one of the characters < > : | ? * are rejected, as on
    win32. *)
Definition win32_bad_name (name : string) : bool :=
  existsb (fun c => existsb (Ascii.eqb c)
                      (list_ascii_of_string "<>:|?*"))
          (list_ascii_of_string name).

Definition posix_bad_name (name : string) : bool := false.

Definition win32_fs := simple_fs "\" win32_bad_name.
Definition win32_path := simple_path "\".
Definition posix_fs := simple_fs "/" posix_bad_name.
Definition posix_path := simple_path "/".

Definition isPathValid_win32 :=
  @isPathValid (list string) win32_fs win32_path.
Definition isPathValid_posix :=
  @isPathValid (list string) posix_fs posix_path.
End SimpleFs.

(** ** The kit command and its test suite (taco-cli/test/kit.ts)

    The suite drives the [kit] and [create] commands of taco-cli and the
    taco-kits registry; none of the three is part of the sources at hand,
    only the suite is.  The commands are modelled from the specification;
    the suite's expectations and checks are taken from kit.ts, and the
    scenarios of the suite are run on the model further down. *)

Module Kit.
Import UtilHelper.

(** A [taco.json] object: string keys, string values. *)
Abbreviation manifest := (gmap string string).

(** Modelled from the spec: the Kit of the taco-kits registry (section 3):
    identifier, associated Cordova CLI version, recommended plugin and
    platform version constraints, optional deprecation flag. *)
Record KitInfo := mkKit {
  kit_id : string;
  kit_cordova_cli : string;
  kit_plugins : list (string * string);
  kit_platforms : list (string * string);
  kit_deprecated : bool
}.

(** Modelled from the spec: the KitRegistry, an ordered mapping from
    identifier to Kit. *)
Definition KitRegistry := list KitInfo.

(** A surfaced error: its code and its contextual data. *)
Record KitError := mkKitError {
  kerr_code : TacoErrorCode;
  kerr_data : list string
}.

Inductive result (A : Type) :=
| Ok (a : A)
| Err (e : KitError).
Arguments Ok {A} a.
Arguments Err {A} e.

(** The [taco.json] file of a project, as the reader finds it. *)
Inductive ManifestFile :=
| Missing
| Malformed
| Parsed (m : manifest).

(** The part of the world the commands act on: the project's manifest,
    whether the underlying write of it succeeds, and the files written by
    [kit list --json]. *)
Record World := mkWorld {
  tacoJson : ManifestFile;
  writable : bool;
  jsonFiles : gset string
}.

(** What [select] is given (section 4.3): a kit ID or a raw CLI version. *)
Inductive Selection :=
| ByKit (id : string)
| ByCordova (version : string).

(** Modelled from the spec: the CLI surface of section 6,
    [kit list [--kit <id>] [--json <path>]] and
    [kit select [--kit <id> | --cordova <version>]]. *)
Inductive Command :=
| List (kit : option string) (json : option string)
| Select (target : Selection).

(** A telemetry property, as the suite spells it:
    [{ isPii: ..., value: ... }]. *)
Record TelemetryProperty := mkProp {
  isPii : bool;
  value : string
}.

Abbreviation telemetry := (gmap string TelemetryProperty).

Section Flow.
(** The registry loaded from taco-kits. *)
Variable registry : KitRegistry.
(** The recognized pattern of a Cordova CLI version; the specification
    says semantic-version-like and no more. *)
Variable recognized : string -> bool.

(** Modelled from the spec: [resolveKit] of section 4.1, failing with
    InvalidKit when the identifier is not in the mapping. *)
Definition resolveKit (id : string) : result KitInfo :=
  match find (fun k => String.eqb (kit_id k) id) registry with
  | Some k => Ok k
  | None => Err (mkKitError InvalidKit [id])
  end.

(** Modelled from the spec: [resolveCordovaVersion] of section 4.1. *)
Definition resolveCordovaVersion (version : string) : result string :=
  if recognized version then Ok version
  else Err (mkKitError InvalidVersion [version]).

(** Modelled from the spec: [listKits] of section 4.1. *)
Definition listKits : list KitInfo := registry.

(** Modelled from the spec: the manifest written for a selection.  For
    a raw CLI version it is [{"cordova-cli": version}].  For a kit it
    is the kit record of section 8,
    [{kit: id, "cordova-cli": <the kit's CLI version>}], which is what
    the suite's [expectedKitTacoJsonKeyValues] requires. *)
Definition manifest_of_kit (k : KitInfo) : manifest :=
  <["kit" := kit_id k]> {["cordova-cli" := kit_cordova_cli k]}.

Definition manifest_of_cli (version : string) : manifest :=
  {["cordova-cli" := version]}.

(** Modelled from the spec: [ManifestWriter.write] of section 4.2: a
    full overwrite, all or nothing, failing with FailedFileWrite. *)
Definition write (w : World) (m : manifest) : result World :=
  if writable w
  then Ok (mkWorld (Parsed m) (writable w) (jsonFiles w))
  else Err (mkKitError FailedFileWrite ["taco.json"]).

(** Modelled from the spec: [ManifestWriter.read] of section 4.2. *)
Definition read (w : World) : result manifest :=
  match tacoJson w with
  | Parsed m => Ok m
  | Missing => Err (mkKitError ManifestNotFound ["taco.json"])
  | Malformed => Err (mkKitError ManifestParseError ["taco.json"])
  end.

(** Modelled from the spec: the transition [select] of section 4.3:
    resolve the target, then write the manifest; on failure the world
    is the one before. *)
Definition select (w : World) (target : Selection) : World * result unit :=
  match target with
  | ByKit id =>
      match resolveKit id with
      | Err e => (w, Err e)
      | Ok k =>
          match write w (manifest_of_kit k) with
          | Ok w' => (w', Ok tt)
          | Err e => (w, Err e)
          end
      end
  | ByCordova version =>
      match resolveCordovaVersion version with
      | Err e => (w, Err e)
      | Ok v =>
          match write w (manifest_of_cli v) with
          | Ok w' => (w', Ok tt)
          | Err e => (w, Err e)
          end
      end
  end.

(** Modelled from the spec: [kit list], which displays the catalog (or
    one kit of it) and with [--json] writes the catalog to the path. *)
Definition list_kits (w : World) (kit json : option string)
  : World * result unit :=
  match match kit with
        | Some id => match resolveKit id with
                     | Ok _ => Ok tt
                     | Err e => Err e
                     end
        | None => Ok tt
        end
  with
  | Err e => (w, Err e)
  | Ok _ =>
      match json with
      | Some path =>
          (mkWorld (tacoJson w) (writable w) ({[path]} ∪ jsonFiles w),
           Ok tt)
      | None => (w, Ok tt)
      end
  end.

(** The options of a command, by name, in the order given. *)
Definition options_of (c : Command) : list (string * string) :=
  match c with
  | List kit json =>
      match kit with Some id => [("kit", id)] | None => [] end ++
      match json with Some path => [("json", path)] | None => [] end
  | Select (ByKit id) => [("kit", id)]
  | Select (ByCordova version) => [("cordova", version)]
  end.

Definition subCommand_of (c : Command) : string :=
  match c with
  | List _ _ => "list"
  | Select _ => "select"
  end.

(** Modelled from the spec: the telemetry of section 4.3.  The values
    of the options [kit] and [cordova] are not personally
    identifiable; the value of any other option (the JSON output path)
    is. *)
Definition nonPiiOptions : list string := ["kit"; "cordova"].

Definition option_property (name v : string) : TelemetryProperty :=
  mkProp (negb (existsb (String.eqb name) nonPiiOptions)) v.

Definition addPropertiesFromOptions (t : telemetry)
    (opts : list (string * string)) : telemetry :=
  fold_left
    (fun t nv => <["options." +:+ fst nv := option_property (fst nv) (snd nv)]> t)
    opts t.

Definition telemetry_of (c : Command) : telemetry :=
  addPropertiesFromOptions
    {["subCommand" := mkProp false (subCommand_of c)]}
    (options_of c).

(** Modelled from the spec: [kit.run]: runs the sub-command and, on
    success, returns the telemetry. *)
Definition run (w : World) (c : Command) : World * result telemetry :=
  let '(w', r) :=
    match c with
    | List kit json => list_kits w kit json
    | Select target => select w target
    end in
  match r with
  | Ok _ => (w', Ok (telemetry_of c))
  | Err e => (w', Err e)
  end.

(** Modelled from the spec: reading the arguments of the command.  No
    sub-command means [list]. *)
Definition parse_list_options :=
  fix go (args : list string) (kit json : option string) : option Command :=
    match args with
    | [] => Some (List kit json)
    | name :: rest =>
        match rest with
        | v :: rest' =>
            if String.eqb name "--kit" then go rest' (Some v) json
            else if String.eqb name "--json" then go rest' kit (Some v)
            else None
        | [] => None
        end
    end.

Definition parse (args : list string) : option Command :=
  match args with
  | [] => Some (List None None)
  | sub :: rest =>
      if String.eqb sub "list" then parse_list_options rest None None
      else if String.eqb sub "select" then
        match rest with
        | [name; v] =>
            if String.eqb name "--kit" then Some (Select (ByKit v))
            else if String.eqb name "--cordova"
            then Some (Select (ByCordova v))
            else None
        | _ => None
        end
      else None
  end.

(** Modelled from the spec: [create <dir> --kit <id>] and
    [create <dir> --cordova <version>], which create the project's
    manifest (section 3, lifecycle) for the selection. *)
Definition createProject (w : World) (target : Selection)
  : World * result unit :=
  select w target.
End Flow.
End Kit.

Module KitTest.
Import UtilHelper Kit.

(** The two expectations of the suite. *)
Definition expectedCliTacoJsonKeyValues : manifest :=
  {["cordova-cli" := "5.1.1"]}.

Definition expectedKitTacoJsonKeyValues : manifest :=
  <["kit" := "5.1.1-Kit"]> {["cordova-cli" := "5.1.1"]}.

(** How a check of the suite ends. *)
Inductive verdict (A : Type) :=
| Pass (a : A)
| Fail (why : string).
Arguments Pass {A} a.
Arguments Fail {A} why.

(** [fs.existsSync(tacoJsonPath).should.be.true], then
    [tacoJsonKeyValues.should.be.eql(require(tacoJsonPath))]. *)
Definition verifyTacoJson (w : World) (tacoJsonKeyValues : manifest) : bool :=
  match tacoJson w with
  | Parsed tacoJson => bool_decide (tacoJsonKeyValues = tacoJson)
  | Missing | Malformed => false
  end.

Section Suite.
Variable registry : KitRegistry.
Variable recognized : string -> bool.

(** [kitRun(args)]: [kit.run] on the command data made of [args];
    [None] for arguments outside the surface of section 6, which the
    model of the command does not cover. *)
Definition kitRun (w : World) (args : list string)
  : option (World * result telemetry) :=
  match parse args with
  | Some c => Some (run registry recognized w c)
  | None => None
  end.

Definition runKitCommandSuccessCaseAndVerifyTacoJson (w : World)
    (args : list string) (tacoJsonKeyValues : manifest)
  : option (World * verdict telemetry) :=
  match kitRun w args with
  | Some (w', Ok telemetryParameters) =>
      if verifyTacoJson w' tacoJsonKeyValues
      then Some (w', Pass telemetryParameters)
      else Some (w', Fail "taco.json differs")
  | Some (w', Err _) => Some (w', Fail "rejected")
  | None => None
  end.

Definition runKitCommandFailureCaseAndVerifyTacoJson (w : World)
    (args : list string) (tacoJsonKeyValues : manifest)
    (expectedErrorCode : TacoErrorCode)
  : option (World * verdict unit) :=
  match kitRun w args with
  | Some (w', Ok _) =>
      Some (w', Fail "Scenario succeeded when it should have failed")
  | Some (w', Err err) =>
      if negb (code_eqb (kerr_code err) expectedErrorCode)
      then Some (w', Fail "error code differs")
      else if verifyTacoJson w' tacoJsonKeyValues
      then Some (w', Pass tt)
      else Some (w', Fail "taco.json differs")
  | None => None
  end.

(** [createKitProject(kit)] and [createCliProject(cli)], from a world
    without manifest. *)
Definition fresh_world : World := mkWorld Missing true ∅.

Definition createKitProject (kit : string) : World :=
  fst (createProject registry recognized fresh_world (ByKit kit)).

Definition createCliProject (cli : string) : World :=
  fst (createProject registry recognized fresh_world (ByCordova cli)).
End Suite.

(** Modelled from the spec: the part of the taco-kits catalog the suite
    relies on, the kit [5.1.1-Kit] pinning the Cordova CLI [5.1.1]. *)
Definition suite_registry : KitRegistry :=
  [ mkKit "5.1.1-Kit" "5.1.1" [] [] false ].

Definition is_digit (c : ascii) : bool :=
  let n := nat_of_ascii c in (48 <=? n)%nat && (n <=? 57)%nat.

Definition is_number (s : string) : bool :=
  negb (String.eqb s "") && forallb is_digit (list_ascii_of_string s).

(** Modelled from the spec: a semantic-version-like pattern, three
    numbers separated by dots. *)
Definition semver_like (version : string) : bool :=
  match split "." version with
  | [a; b; c] => is_number a && is_number b && is_number c
  | _ => false
  end.
End KitTest.

(** ** TacoUtility.UtilHelper: files and directories *)

Module UtilHelperIO.
Import JsString UtilHelper.

(** The byte order mark, U+FEFF. *)
Definition BOM : N := 65279%N.

(** [contents.replace(/^\uFEFF/, "")]: the pattern is anchored and not
    global, it matches once at most. *)
Definition strip_bom (contents : jsstring) : jsstring :=
  match contents with
  | c :: r => if (c =? BOM)%N then r else contents
  | [] => []
  end.

(** [encoding || "utf-8"] *)
Definition encoding_or_default (encoding : option string) : string :=
  match encoding with
  | Some e => if String.eqb e "" then "utf-8" else e
  | None => "utf-8"
  end.

Section ReadFile.
(** [fs.readFileSync(filename, encoding)]: the decoded contents, or the
    error thrown. *)
Variable readFileSync : string -> string -> completion jsstring.

(** [readFileContentsSync(filename, encoding)] *)
Definition readFileContentsSync (filename : string) (encoding : option string)
  : completion jsstring :=
  match readFileSync filename (encoding_or_default encoding) with
  | Normal contents =>
      if truthy contents then Normal (strip_bom contents) else Normal contents
  | Throw e => Throw e
  end.
End ReadFile.

(** [copyRecursive(source, target, options)]: [ncp.ncp] reports through
    its callback, with an error or without; the promise after the callback
    was invoked with [reports], in this order. *)
Definition copyRecursive_on (source target : string)
    (deferred : promise unit TacoError) (error : option JsError)
  : promise unit TacoError :=
  match error with
  | Some e => reject deferred (wrap FailedRecursiveCopy e [source; target])
  | None => resolve deferred tt
  end.

Definition copyRecursive (source target : string)
    (reports : list (option JsError)) : promise unit TacoError :=
  fold_left (copyRecursive_on source target) reports Pending.

(** [mkdirp.sync(dir)]: the state afterwards and the error thrown, if
    any. *)
Class Mkdirp (FS : Type) := {
  mkdirpSync : FS -> string -> FS * option JsError
}.

Section CreateDirectory.
Context {FS : Type} `{FileSystem FS} `{Mkdirp FS}.

(** [createDirectoryIfNecessary(dir)]: the state afterwards, and the
    value returned or the error thrown. *)
Definition createDirectoryIfNecessary (fs : FS) (dir : string)
  : FS * completion bool :=
  if negb (existsSync fs dir) then
    match mkdirpSync fs dir with
    | (fs', None) => (fs', Normal true)
    | (fs', Some err) =>
        if negb (existsSync fs' dir) then (fs', Throw err)
        else (fs', Normal false)
    end
  else (fs, Normal false).
End CreateDirectory.

End UtilHelperIO.

(** ** [mkdirp] on the small file system *)

Module SimpleMkdirp.
Import UtilHelper UtilHelperIO SimpleFs.

Section Simple.
Variable sepc : ascii.
Variable bad_name : string -> bool.

(** The path of each non-empty prefix of the components, outermost
    first. *)
Fixpoint ancestors (done_ components : list string) : list string :=
  match components with
  | [] => []
  | c :: r => concat_with sepc (done_ ++ [c]) :: ancestors (done_ ++ [c]) r
  end.

(** Creates the missing directories from the outermost on; stops at a
    name the system rejects. *)
Fixpoint mkdirp_all (dirs : list string) (paths : list string)
  : list string * option JsError :=
  match paths with
  | [] => (dirs, None)
  | p :: r =>
      if String.eqb p "" || has dirs p then mkdirp_all dirs r
      else if bad_name (basename sepc p) then (dirs, Some (SystemError "ENOENT"))
      else mkdirp_all (dirs ++ [p]) r
  end.

Definition simple_mkdirp (dirs : list string) (p : string)
  : list string * option JsError :=
  mkdirp_all dirs (ancestors [] (split sepc p)).

Definition simple_mkdirp_instance : Mkdirp (list string) :=
  {| mkdirpSync := simple_mkdirp |}.
End Simple.

Definition posix_mkdirp := simple_mkdirp_instance "/" posix_bad_name.

Definition createDirectoryIfNecessary_posix :=
  @createDirectoryIfNecessary (list string) posix_fs posix_mkdirp.
End SimpleMkdirp.

(** ** The TypeScript build hook (tsc-invoker.js)

    [CordovaTools.TSCInvoker] looks for the TypeScript sources of a
    project and composes the command line of the compiler.  The directory
    tree it walks is a finite tree of readable directories and files. *)

Module TSCInvoker.
Import UtilHelper.

(** What [fs.statSync(p).isDirectory()] and [fs.readdirSync(p)] tell:
    a file, or a directory with its entries in the order [readdirSync]
    lists them. *)
#[warnings="-register-all"] Inductive fsnode :=
| File
| Directory (entries : list (string * fsnode)).

Definition DEFAULT_SOURCE_DIRECTORIES : string := "www;merges".

(** The configuration [readConfiguration] returns when it is an object:
    [options], when it is an object, as its keys and values in the order
    [for ... in] visits them; [filesRoot], when it is a string. *)
Record Configuration (V : Type) := mkConfiguration {
  options : option (list (string * V));
  filesRoot : option string
}.
Arguments mkConfiguration {V}.
Arguments options {V}.
Arguments filesRoot {V}.

Section Invoker.
(** [path.join] and [path.extname]. *)
Variable join : string -> string -> string.
Variable extname : string -> string.

(** The body of [getProjectTypescriptFiles] once [filesRoot] exists: the
    loop over [fs.readdirSync(filesRoot)], pushing onto [result]. *)
Fixpoint walk (filesRoot : string) (node : fsnode) (result : list string)
  : list string :=
  match node with
  | File => result
  | Directory entries =>
      (fix loop (files : list (string * fsnode)) (result : list string)
         : list string :=
         match files with
         | [] => result
         | (name, child) :: rest =>
             let currentPath := join filesRoot name in
             match child with
             | File =>
                 if String.eqb (extname currentPath) ".ts"
                 then loop rest (result ++ [currentPath])
                 else loop rest result
             | Directory _ => loop rest (walk currentPath child result)
             end
         end) entries result
  end.

(** [getProjectTypescriptFiles(filesRoot, result)], [root] being what is
    found at [filesRoot]: nothing ([fs.existsSync] is false), or a node.
    [fs.readdirSync] of a file throws ENOTDIR. *)
Definition getProjectTypescriptFiles (filesRoot : string)
    (root : option fsnode) (result : list string)
  : completion (list string) :=
  match root with
  | None => Normal result
  | Some File => Throw (SystemError "ENOTDIR")
  | Some (Directory entries) => Normal (walk filesRoot (Directory entries) result)
  end.

Section Compose.
Context {V : Type}.
(** [v !== ''] fails for the empty string only; [' ' + v] converts the
    value to a string. *)
Variable is_empty_string : V -> bool.
Variable to_string : V -> string.
(** What is found at a path. *)
Variable node_at : string -> option fsnode.

(** The text one option adds to [compilerOptions]. *)
Definition option_text (option : string) (v : V) : string :=
  " --" +:+ option +:+
  (if is_empty_string v then "" else " " +:+ to_string v).

Definition compilerOptions_of (configuration : option (Configuration V))
  : string :=
  match configuration with
  | Some c =>
      match options c with
      | Some opts =>
          fold_left (fun acc ov => acc +:+ option_text (fst ov) (snd ov)) opts ""
      | None => ""
      end
  | None => ""
  end.

(** [(configuration && configuration.filesRoot) ? configuration.filesRoot
    : DEFAULT_SOURCE_DIRECTORIES] *)
Definition sourceLocations_of (configuration : option (Configuration V))
  : string :=
  match configuration with
  | Some c =>
      match filesRoot c with
      | Some r => if String.eqb r "" then DEFAULT_SOURCE_DIRECTORIES else r
      | None => DEFAULT_SOURCE_DIRECTORIES
      end
  | None => DEFAULT_SOURCE_DIRECTORIES
  end.

(** The loop over the locations, all pushing onto the one array
    [sourceFiles]. *)
Fixpoint collect_sources (projectDirectory : string)
    (filesRootDirectories : list string) (sourceFiles : list string)
  : completion (list string) :=
  match filesRootDirectories with
  | [] => Normal sourceFiles
  | d :: rest =>
      let root := join projectDirectory d in
      match getProjectTypescriptFiles root (node_at root) sourceFiles with
      | Normal sourceFiles' => collect_sources projectDirectory rest sourceFiles'
      | Throw e => Throw e
      end
  end.

Definition filesArgument_of (sourceFiles : list string) : string :=
  fold_left (fun acc f => acc +:+ " " +:+ f) sourceFiles "".

(** [composeCompileCommand()], for the configuration read and the project
    directory [process.argv[2]]. *)
Definition composeCompileCommand
    (configuration : option (Configuration V)) (projectDirectory : string)
  : completion string :=
  let compilerOptions := compilerOptions_of configuration in
  let sourceLocations := sourceLocations_of configuration in
  match collect_sources projectDirectory (split ";" sourceLocations) [] with
  | Normal sourceFiles =>
      Normal ("tsc " +:+ compilerOptions +:+ filesArgument_of sourceFiles)
  | Throw e => Throw e
  end.
End Compose.
End Invoker.

(** A project for the examples: [www/js/index.ts], [www/js/app.js],
    [www/index.html], [merges/android/fix.ts]. *)
Definition sample_www : fsnode :=
  Directory [ ("index.html", File);
              ("js", Directory [ ("app.js", File); ("index.ts", File) ]) ].

Definition sample_merges : fsnode :=
  Directory [ ("android", Directory [ ("fix.ts", File) ]) ].

Definition sample_node_at (p : string) : option fsnode :=
  if String.eqb p "proj/www" then Some sample_www
  else if String.eqb p "proj/merges" then Some sample_merges
  else None.

(** A [path.join] and a [path.extname] for the examples, on plain
    names: the extension runs from the last dot, when that dot is not the
    first character. *)
Definition sample_join (a b : string) : string := a +:+ "/" +:+ b.

Fixpoint after_last_dot (s : string) : option string :=
  match s with
  | EmptyString => None
  | String c r =>
      match after_last_dot r with
      | Some e => Some e
      | None => if Ascii.eqb c "." then Some s else None
      end
  end.

Definition sample_extname (p : string) : string :=
  let name := List.last (split "/" p) EmptyString in
  match name with
  | EmptyString => ""
  | String c r => default "" (after_last_dot r)
  end.
End TSCInvoker.

(** ** The vocabulary of the statements *)

Module Spec.
Import UtilHelper.

(** The codes the table holds. *)
Definition table_codes : list N := [34; 36; 38; 39; 60; 92]%N.

(** A [path.join] for the examples: the two parts around a slash. *)
Definition slash_join (a b : string) : string := a +:+ "/" +:+ b.

(** The names an exclusion list rules out: none for [null] and
    [undefined]. *)
Definition excluded_by (exclude : exclusion) (k : string) : Prop :=
  match exclude with
  | Array names => In k names
  | Undefined | Null => False
  end.

(** An attempt refused with ENOENT, and one that is not: the directory
    was created, or the error has another code. *)
Definition enoent (a : attempt) : Prop := att_error a = Some "ENOENT".

Definition tolerated (a : attempt) : Prop :=
  att_error a = None \/
  exists code, att_error a = Some code /\ code <> "ENOENT".

(** The segments to test: all of them, but for a leading drive letter
    on win32. *)
Definition tested_segments (platform : string) (segments : list string)
  : list string :=
  match segments with
  | first :: rest =>
      if String.eqb platform "win32" && is_drive_letter first
      then rest else segments
  | [] => []
  end.

(** The same, for the callback running from position [index]. *)
Fixpoint to_test (platform : string) (index : nat) (segments : list string)
  : list string :=
  match segments with
  | [] => []
  | segment :: rest =>
      if (index =? 0)%nat && String.eqb platform "win32"
         && is_drive_letter segment
      then to_test platform (S index) rest
      else segment :: to_test platform (S index) rest
  end.


Section Trace.
Context {FS : Type} `{FileSystem FS} `{Path}.

(** A run of calls of [mkdirSync], each on the segment joined to the
    directory created last: from a file system and a current path to
    a file system and a current path. *)
Inductive probe_trace : FS -> string -> list attempt -> FS -> string -> Prop :=
| trace_done fs cur :
    probe_trace fs cur [] fs cur
| trace_created fs cur segment fs' rest fsN curN :
    mkdirSync fs (join cur segment) = (fs', None) ->
    probe_trace fs' (join cur segment) rest fsN curN ->
    probe_trace fs cur
      (mkAttempt segment (join cur segment) None :: rest) fsN curN
| trace_failed fs cur segment code fs' rest fsN curN :
    mkdirSync fs (join cur segment) = (fs', Some code) ->
    probe_trace fs' cur rest fsN curN ->
    probe_trace fs cur
      (mkAttempt segment (join cur segment) (Some code) :: rest) fsN curN.

End Trace.

(** An options dictionary at reference 1, cleansed of ["json"]. *)
Definition sample_heap : gmap positive (gmap string string) :=
  {[ 1%positive := <["kit" := "5.1.1-Kit"]> {["json" := "/tmp/kits.json"]} ]}.

End Spec.

(** ** More vocabulary: the files below a directory *)

Module SpecTree.
Import UtilHelper TSCInvoker.

Section Tree.
Variable join : string -> string -> string.
Variable extname : string -> string.

(** [reaches root node p]: [p] is the path of a file below the directory
    [node] found at [root], each level joined to the one above. *)
Inductive reaches : string -> fsnode -> string -> Prop :=
| reaches_file root entries name :
    In (name, File) entries ->
    reaches root (Directory entries) (join root name)
| reaches_below root entries name sub p :
    In (name, Directory sub) entries ->
    reaches (join root name) (Directory sub) p ->
    reaches root (Directory entries) p.

(** The loop of [getProjectTypescriptFiles] over the entries of a
    directory. *)
Definition walk_entries (filesRoot : string)
    (entries : list (string * fsnode)) (result : list string) : list string :=
  walk join extname filesRoot (Directory entries) result.

(** The TypeScript files found from a location, none when nothing is
    there. *)
Definition files_under (root : string) (node : option fsnode) : list string :=
  match node with
  | Some (Directory entries) => walk join extname root (Directory entries) []
  | Some File | None => []
  end.
End Tree.

(** The number of double quotes of a string. *)
Definition count_dquotes (s : JsString.jsstring) : nat :=
  length (List.filter (N.eqb JsString.dquote) s).

(** The names an exclusion list holds. *)
Definition names_of (exclude : exclusion) : list string :=
  match exclude with
  | Array names => names
  | Undefined | Null => []
  end.
(** The separators of a string. *)
Definition count_sep (c : ascii) (s : string) : nat :=
  length (List.filter (Ascii.eqb c) (list_ascii_of_string s)).

(** A file whose contents are two byte order marks and the letter a. *)
Definition two_marks (filename encoding : string) : completion JsString.jsstring :=
  if String.eqb filename "a.txt" && String.eqb encoding "utf-8"
  then Normal (UtilHelperIO.BOM :: UtilHelperIO.BOM :: JsString.js "a")
  else Throw (SystemError "ENOENT").

End SpecTree.

(** * Statements *)

(** ** App names and quoting *)

Module StringFacts.
Import JsString UtilHelper Spec.

Lemma indexOfFrom_none c s i :
  (0 <= i)%Z -> indexOfFrom c s i = (-1)%Z <-> ~ In c s.
Proof.
  revert i; induction s as [|x r IH]; intros i Hi; simpl.
  - tauto.
  - destruct (N.eqb_spec x c) as [->|Hne].
    + split; [intros; lia | intros H; exfalso; apply H; now left].
    + rewrite IH by lia. tauto.
Qed.

Lemma indexOfFrom_ge c s i :
  (0 <= i)%Z -> In c s -> (i <= indexOfFrom c s i)%Z.
Proof.
  revert i; induction s as [|x r IH]; intros i Hi Hin; simpl in *.
  - tauto.
  - destruct (N.eqb_spec x c) as [->|Hne]; [lia|].
    destruct Hin as [->|Hin]; [congruence|].
    specialize (IH (i + 1)%Z ltac:(lia) Hin). lia.
Qed.

Lemma replaceAll_flat_map c by_ s :
  replaceAll c by_ s =
  flat_map (fun x => if (x =? c)%N then by_ else [x]) s.
Proof.
  induction s as [|x r IH]; simpl; [reflexivity|].
  rewrite IH. now destruct (x =? c)%N.
Qed.

Lemma table_get_truthy code :
  truthy_opt (InvalidAppNameChars_get code) = true <-> In code table_codes.
Proof.
  unfold InvalidAppNameChars_get, InvalidAppNameChars, table_codes.
  cbn -[N.eqb].
  repeat match goal with
         | |- context [(?k =? code)%N] =>
             destruct (N.eqb_spec k code) as [<-|?];
             [split; [intros _; auto 10 | reflexivity] |]
         end.
  split; [intros; discriminate | intros H; exfalso; intuition congruence].
Qed.

(** X1.  What the loop of [isValidCordovaAppName] decides, for every
    sequence of code units: a name is valid exactly when each of its units
    is at least 32 and is none of the six keys of the table, the codes 34,
    36, 38, 39, 60 and 92. *)
Lemma isValidCordovaAppName_codes (str : jsstring) :
  isValidCordovaAppName str = true <->
  Forall (fun code => (32 <= code)%N /\ ~ In code table_codes) str.
Proof.
  induction str as [|code rest IH]; simpl.
  - split; [constructor | reflexivity].
  - destruct (N.ltb_spec code 32) as [Hlt|Hge]; simpl.
    + split; [discriminate|]. intros H. apply Forall_cons in H as [[? _] _]. lia.
    + destruct (truthy_opt (InvalidAppNameChars_get code)) eqn:E.
      * apply table_get_truthy in E.
        split; [discriminate|]. intros H. apply Forall_cons in H as [[_ ?] _]. tauto.
      * rewrite IH. split.
        -- intros H. constructor; [split; [exact Hge|]|exact H].
           intros Hin. apply table_get_truthy in Hin. congruence.
        -- intros H. now apply Forall_cons in H as [_ ?].
Qed.

Lemma invalidAppNameCharacters_eq :
  invalidAppNameCharacters =
  [[dquote]; js "$"; js "&"; js "/"; js "<"; [backslash]].
Proof. reflexivity. Qed.

(** C8.  [invalidAppNameCharacters()] returns the six characters
    double quote, dollar, ampersand, slash, less-than and backslash, and
    the empty name is valid; but [isValidCordovaAppName] does not refuse
    exactly these six: the table files the slash under char code 39, the
    apostrophe's, so that a name with a slash (code 47) is accepted and a
    name with an apostrophe is refused. *)
Theorem isValidCordovaAppName_slash :
  invalidAppNameCharacters =
    [[dquote]; js "$"; js "&"; js "/"; js "<"; [backslash]] /\
  isValidCordovaAppName [] = true /\
  js "/" = [47%N] /\
  isValidCordovaAppName (js "a/b") = true /\
  isValidCordovaAppName (js "it's") = false /\
  ~ In (js "'") invalidAppNameCharacters.
Proof.
  repeat split; try reflexivity.
  cbv. intuition discriminate.
Qed.

(** C10.  [quotesAroundIfNecessary] returns an input without a space
    unchanged, whatever else it contains, and otherwise the input with
    each double quote replaced by a backslash and a double quote, the
    whole between double quotes. *)
Theorem quotesAroundIfNecessary_spec (input : jsstring) :
  (~ In space input -> quotesAroundIfNecessary input = input) /\
  (In space input ->
   quotesAroundIfNecessary input =
   [dquote]
     ++ flat_map (fun c => if (c =? dquote)%N then [backslash; dquote] else [c])
                 input
     ++ [dquote]).
Proof.
  unfold quotesAroundIfNecessary, indexOf. split; intros H.
  - apply (indexOfFrom_none space input 0%Z) in H; [|lia].
    rewrite H. reflexivity.
  - pose proof (indexOfFrom_ge space input 0%Z ltac:(lia) H) as Hge.
    destruct (Z.ltb_spec (-1) (indexOfFrom space input 0)) as [_|Hle]; [|lia].
    now rewrite replaceAll_flat_map.
Qed.

Lemma quotesAroundIfNecessary_witness :
  quotesAroundIfNecessary (34 :: js "a" ++ [34])%N = (34 :: js "a" ++ [34])%N /\
  quotesAroundIfNecessary (js "say " ++ [34] ++ js "hi" ++ [34])%N =
    ([34] ++ js "say " ++ [92; 34] ++ js "hi" ++ [92; 34] ++ [34])%N.
Proof.
  split.
  - apply (proj1 (quotesAroundIfNecessary_spec _)).
    cbv. intuition discriminate.
  - apply (proj2 (quotesAroundIfNecessary_spec (js "say " ++ [34] ++ js "hi" ++ [34])%N)).
    cbv. tauto.
Defined.
End StringFacts.

(** ** tacoHome *)

Module TacoHomeFacts.
Import UtilHelper Spec.

Section Spec.
Variable path_join : string -> string -> string.
Variables (env : gmap string string) (platform : string).

Lemma tacoHome_set home :
  env !! "TACO_HOME" = Some home -> home <> "" ->
  tacoHome path_join env platform = Normal home.
Proof.
  intros E Hne. unfold tacoHome. rewrite E.
  destruct (String.eqb_spec home ""); [contradiction | reflexivity].
Qed.

Lemma tacoHome_unset :
  env !! "TACO_HOME" = None \/ env !! "TACO_HOME" = Some "" ->
  tacoHome path_join env platform = tacoHome_default path_join env platform.
Proof.
  intros [E|E]; unfold tacoHome; rewrite E; reflexivity.
Qed.

Lemma tacoHome_default_unexpected :
  platform <> "win32" -> platform <> "darwin" -> platform <> "linux" ->
  tacoHome_default path_join env platform = Throw (Error "UnexpectedPlatform").
Proof.
  intros H1 H2 H3. unfold tacoHome_default.
  destruct (String.eqb_spec platform "win32"); [contradiction|].
  destruct (String.eqb_spec platform "darwin"); [contradiction|].
  destruct (String.eqb_spec platform "linux"); [contradiction|].
  reflexivity.
Qed.
End Spec.

(** C4, as amended.  [tacoHome] returns the value of TACO_HOME when it is
    set to a non-empty string.  When it is unset (or empty) the accessor
    returns [path.join(APPDATA, "taco_home")] on win32,
    [path.join(HOME, ".taco_home")] on darwin and on linux, and on every
    other platform it throws the error UnexpectedPlatform. *)
Theorem tacoHome_spec (path_join : string -> string -> string)
    (env : gmap string string) (platform : string) :
  (forall home, env !! "TACO_HOME" = Some home -> home <> "" ->
     tacoHome path_join env platform = Normal home) /\
  (env !! "TACO_HOME" = None \/ env !! "TACO_HOME" = Some "" ->
     (forall appdata, platform = "win32" -> env !! "APPDATA" = Some appdata ->
        tacoHome path_join env platform = Normal (path_join appdata "taco_home")) /\
     (forall home, platform = "darwin" \/ platform = "linux" ->
        env !! "HOME" = Some home ->
        tacoHome path_join env platform = Normal (path_join home ".taco_home")) /\
     (platform <> "win32" -> platform <> "darwin" -> platform <> "linux" ->
        tacoHome path_join env platform = Throw (Error "UnexpectedPlatform"))).
Proof.
  split; [apply tacoHome_set|].
  intros E. rewrite (tacoHome_unset _ _ _ E). repeat split.
  - intros appdata -> Ha. unfold tacoHome_default. simpl. now rewrite Ha.
  - intros home [-> | ->] Hh; unfold tacoHome_default; simpl; now rewrite Hh.
  - apply tacoHome_default_unexpected.
Qed.

Lemma tacoHome_spec_witness :
  tacoHome slash_join {["TACO_HOME" := "/opt/taco"]} "linux"
    = Normal "/opt/taco" /\
  tacoHome slash_join {["APPDATA" := "C:/Users/u/AppData"]} "win32"
    = Normal "C:/Users/u/AppData/taco_home" /\
  tacoHome slash_join {["HOME" := "/home/u"]} "linux"
    = Normal "/home/u/.taco_home" /\
  tacoHome slash_join {["HOME" := "/home/u"]} "sunos"
    = Throw (Error "UnexpectedPlatform").
Proof.
  split; [|split; [|split]].
  - apply (proj1 (tacoHome_spec slash_join {["TACO_HOME" := "/opt/taco"]} "linux"));
      [reflexivity | discriminate].
  - destruct (tacoHome_spec slash_join {["APPDATA" := "C:/Users/u/AppData"]} "win32")
      as [_ H].
    destruct H as (H & _ & _); [left; reflexivity|].
    apply (H "C:/Users/u/AppData"); reflexivity.
  - destruct (tacoHome_spec slash_join {["HOME" := "/home/u"]} "linux") as [_ H].
    destruct H as (_ & H & _); [left; reflexivity|].
    apply (H "/home/u"); [right; reflexivity | reflexivity].
  - destruct (tacoHome_spec slash_join {["HOME" := "/home/u"]} "sunos") as [_ H].
    destruct H as (_ & _ & H); [left; reflexivity|].
    apply H; discriminate.
Defined.

(** The accessor on a platform that is neither win32, darwin nor linux:
    with TACO_HOME unset and HOME set, the result is not the directory
    under HOME, an error is thrown.  And with TACO_HOME set to the empty
    string its value is not returned. *)
Lemma tacoHome_elsewhere_throws :
  tacoHome slash_join {["HOME" := "/home/u"]} "freebsd"
    = Throw (Error "UnexpectedPlatform") /\
  tacoHome slash_join {["HOME" := "/home/u"]} "freebsd"
    <> Normal (slash_join "/home/u" ".taco_home") /\
  tacoHome slash_join (<["TACO_HOME" := ""]> {["HOME" := "/home/u"]}) "linux"
    = Normal "/home/u/.taco_home".
Proof. split; [reflexivity | split; [discriminate | reflexivity]]. Qed.
End TacoHomeFacts.

(** ** copyFile *)

Module CopyFileFacts.
Import UtilHelper.

Lemma settled_stays from to events (d : promise unit TacoError) :
  d <> Pending -> fold_left (copyFile_on from to) events d = d.
Proof.
  revert d; induction events as [|ev r IH]; intros d Hd; simpl; [reflexivity|].
  rewrite IH; destruct d, ev; simpl; congruence.
Qed.

(** The promise is fulfilled only after the write stream emitted
    [finish]. *)
Lemma copyFile_fulfilled from to events :
  copyFile from to events = Fulfilled tt -> In NewFileFinish events.
Proof.
  unfold copyFile. induction events as [|ev r IH]; simpl; [discriminate|].
  destruct ev; simpl; auto; intros H; rewrite settled_stays in H by discriminate;
    discriminate.
Qed.

(** The first event settles the promise. *)
Lemma copyFile_first from to ev events :
  copyFile from to (ev :: events) = copyFile_on from to Pending ev.
Proof.
  unfold copyFile; simpl. apply settled_stays. destruct ev; discriminate.
Qed.

(** C3.  The promise of [copyFile(from, to)] is fulfilled when the write
    stream finishes and rejected with a wrapped error carrying a path
    when a stream fails, but with the two codes exchanged: an error of
    the read stream on [from] is reported as FailedFileWrite, an error of
    the write stream on [to] as FailedFileRead. *)
Theorem copyFile_codes (from to : string) (e : JsError)
    (events : list StreamEvent) :
  copyFile from to (NewFileFinish :: events) = Fulfilled tt /\
  copyFile from to (OldFileError e :: events)
    = Rejected (wrap FailedFileWrite e [from]) /\
  copyFile from to (NewFileError e :: events)
    = Rejected (wrap FailedFileRead e [to]) /\
  errorCode (wrap FailedFileWrite e [from]) <> FailedFileRead /\
  errorCode (wrap FailedFileRead e [to]) <> FailedFileWrite.
Proof.
  rewrite !copyFile_first. simpl. repeat split; discriminate.
Qed.

(** The read of a missing source. *)
Lemma copyFile_missing_source :
  copyFile "missing.txt" "out.txt" [OldFileError (SystemError "ENOENT")]
  = Rejected (mkTacoError FailedFileWrite (SystemError "ENOENT") ["missing.txt"]).
Proof. reflexivity. Qed.
End CopyFileFacts.

(** ** cleanseOptions *)

Module CleanseOptionsFacts.
Import UtilHelper Spec.

Lemma array_indexOf_none names opt i :
  (0 <= i)%Z -> (array_indexOf names opt i <? 0)%Z = true <-> ~ In opt names.
Proof.
  revert i; induction names as [|x r IH]; intros i Hi; simpl.
  - split; [tauto | reflexivity].
  - destruct (String.eqb_spec x opt) as [->|Hne].
    + split; [intros H; apply Z.ltb_lt in H; lia | intros H; exfalso; apply H; now left].
    + rewrite IH by lia. tauto.
Qed.

Lemma kept_true exclude k : kept exclude k = true <-> ~ excluded_by exclude k.
Proof.
  destruct exclude as [| |names]; simpl; [tauto | tauto |].
  now apply array_indexOf_none.
Qed.

Lemma kept_false exclude k : kept exclude k = false <-> excluded_by exclude k.
Proof.
  destruct (kept exclude k) eqn:E.
  - apply kept_true in E. split; [discriminate | tauto].
  - split; [intros _|reflexivity].
    destruct exclude as [| |names]; simpl in *; try discriminate.
    destruct (in_dec String.string_dec k names) as [Hin|Hout]; [exact Hin|].
    apply (array_indexOf_none names k 0%Z) in Hout; [congruence | lia].
Qed.

Section Loop.
Context {V : Type}.
Variables (options cleansed : positive) (exclude : exclusion).
Variable o : gmap string V.
Hypothesis distinct : options <> cleansed.

(** The loop writes through [cleansed] only, and after it the keys
    visited and kept are bound as in [o]. *)
Lemma cleanse_loop (keys : list string) :
  (forall k, k ∈ keys -> is_Some (o !! k)) ->
  forall (h : gmap positive (gmap string V)) (c : gmap string V),
    h !! options = Some o ->
    h !! cleansed = Some c ->
    let h' := fold_left (cleanse_step options cleansed exclude) keys h in
    (forall r, r <> cleansed -> h' !! r = h !! r) /\
    exists c', h' !! cleansed = Some c' /\
      (forall k, k ∈ keys -> kept exclude k = true -> c' !! k = o !! k) /\
      (forall k, k ∉ keys \/ kept exclude k = false -> c' !! k = c !! k).
Proof.
  induction keys as [|x r IH]; intros Hkeys h c Ho Hc; simpl.
  - split; [reflexivity|]. exists c. split; [exact Hc|].
    split; [intros k Hk; inversion Hk | reflexivity].
  - assert (Hr : forall k, k ∈ r -> is_Some (o !! k))
      by (intros k Hk; apply Hkeys; now right).
    cbv zeta.
    destruct (kept exclude x) eqn:Ekept.
    + destruct (Hkeys x ltac:(left)) as [v Hv].
      assert (Hstep : cleanse_step options cleansed exclude h x
                      = <[cleansed := <[x := v]> c]> h).
      { unfold cleanse_step, get_prop, set_prop.
        rewrite Ekept, Ho, Hc. simpl. now rewrite Hv. }
      rewrite Hstep.
      destruct (IH Hr (<[cleansed := <[x := v]> c]> h) (<[x := v]> c))
        as (Hother & c' & Hc' & Hin & Hout).
      { rewrite lookup_insert_ne by congruence. exact Ho. }
      { apply lookup_insert_eq. }
      split.
      * intros q Hq. rewrite Hother by exact Hq.
        apply lookup_insert_ne. congruence.
      * exists c'. split; [exact Hc'|]. split.
        -- intros k Hk Hkept.
           destruct (decide (k ∈ r)) as [Hkr|Hkr]; [now apply Hin|].
           apply elem_of_cons in Hk as [->|Hk]; [|contradiction].
           rewrite Hout by (now left). rewrite Hv. apply lookup_insert_eq.
        -- intros k Hk. rewrite Hout.
           ++ apply lookup_insert_ne. intros ->.
              destruct Hk as [Hk|Hk]; [apply Hk; left | congruence].
           ++ destruct Hk as [Hk|Hk]; [left|now right].
              intros Hkr. apply Hk. now right.
    + assert (Hstep : cleanse_step options cleansed exclude h x = h)
        by (unfold cleanse_step; now rewrite Ekept).
      rewrite Hstep.
      destruct (IH Hr h c Ho Hc) as (Hother & c' & Hc' & Hin & Hout).
      split; [exact Hother|].
      exists c'. split; [exact Hc'|]. split.
      * intros k Hk Hkept.
        apply elem_of_cons in Hk as [->|Hk]; [congruence | now apply Hin].
      * intros k Hk. apply Hout.
        destruct Hk as [Hk|Hk]; [left|now right].
        intros Hkr. apply Hk. now right.
Qed.
End Loop.

(** C9.  [cleanseOptions(options, exclude)] returns a new dictionary: a
    fresh reference, bound to an object that has no key of the exclusion
    list and binds every other key as the input does (so its keys are
    the input's keys outside the list); with [null] or [undefined] for
    the list it equals the input; and the input dictionary, like every
    object that existed before the call, is left as it was. *)
Theorem cleanseOptions_spec {V : Type} (h : gmap positive (gmap string V))
    (options : positive) (o : gmap string V) (exclude : exclusion) :
  h !! options = Some o ->
  exists h' cleansed c,
    cleanseOptions h options exclude = (h', cleansed) /\
    h !! cleansed = None /\
    h' !! cleansed = Some c /\
    (forall k, excluded_by exclude k -> c !! k = None) /\
    (forall k, ~ excluded_by exclude k -> c !! k = o !! k) /\
    (exclude = Null \/ exclude = Undefined -> c = o) /\
    h' !! options = Some o /\
    (forall r, r <> cleansed -> h' !! r = h !! r).
Proof.
  intros Ho. unfold cleanseOptions, new_object.
  set (cl := fresh (dom h)).
  assert (Hfresh : h !! cl = None)
    by (apply not_elem_of_dom; apply is_fresh).
  assert (Hne : options <> cl) by (intros ->; congruence).
  assert (Ho0 : <[cl := ∅]> h !! options = Some o)
    by (rewrite lookup_insert_ne by congruence; exact Ho).
  assert (Hkeys : forall k, k ∈ for_in_keys (<[cl := ∅]> h) options <->
                            is_Some (o !! k)).
  { intros k. unfold for_in_keys. rewrite Ho0. simpl.
    rewrite list_elem_of_fmap. split.
    - intros ([k' v] & -> & Hin). apply elem_of_map_to_list in Hin. eauto.
    - intros [v Hv]. exists (k, v). split; [reflexivity|].
      now apply elem_of_map_to_list. }
  destruct (cleanse_loop options cl exclude o Hne
              (for_in_keys (<[cl := ∅]> h) options)
              (fun k Hk => proj1 (Hkeys k) Hk)
              (<[cl := ∅]> h) ∅ Ho0 (lookup_insert_eq _ _ _))
    as (Hother & c & Hc & Hin & Hout).
  assert (Hkept : forall k, ~ excluded_by exclude k -> c !! k = o !! k).
  { intros k Hk. apply kept_true in Hk.
    destruct (o !! k) as [v|] eqn:Ev.
    - rewrite <- Ev. apply Hin; [apply Hkeys; rewrite Ev; eauto | exact Hk].
    - rewrite Hout; [apply lookup_empty|]. left. intros Hk'.
      apply Hkeys in Hk'. rewrite Ev in Hk'. now destruct Hk'. }
  eexists _, cl, c. split; [reflexivity|].
  split; [exact Hfresh|]. split; [exact Hc|].
  split; [|split; [exact Hkept|split; [|split]]].
  - intros k Hk. apply kept_false in Hk.
    rewrite Hout by (now right). apply lookup_empty.
  - intros Hnone. apply map_eq. intros k. apply Hkept.
    destruct Hnone as [-> | ->]; simpl; tauto.
  - rewrite Hother by exact Hne. exact Ho0.
  - intros r Hr. rewrite Hother by exact Hr.
    apply lookup_insert_ne. congruence.
Qed.

Lemma cleanseOptions_spec_witness :
  exists h' cleansed c,
    cleanseOptions sample_heap 1%positive (Array ["json"]) = (h', cleansed) /\
    sample_heap !! cleansed = None /\
    h' !! cleansed = Some c /\
    (forall k, excluded_by (Array ["json"]) k -> c !! k = None) /\
    (forall k, ~ excluded_by (Array ["json"]) k ->
               c !! k = (<["kit" := "5.1.1-Kit"]> {["json" := "/tmp/kits.json"]}
                           : gmap string string) !! k) /\
    (Array ["json"] = Null \/ Array ["json"] = Undefined ->
     c = <["kit" := "5.1.1-Kit"]> {["json" := "/tmp/kits.json"]}) /\
    h' !! 1%positive
      = Some (<["kit" := "5.1.1-Kit"]> {["json" := "/tmp/kits.json"]}) /\
    (forall r, r <> cleansed -> h' !! r = sample_heap !! r).
Proof.
  apply (cleanseOptions_spec sample_heap 1%positive _ (Array ["json"])).
  reflexivity.
Defined.

Example cleanseOptions_sample :
  let '(h', cleansed) := cleanseOptions sample_heap 1%positive (Array ["json"]) in
  h' !! cleansed = Some {["kit" := "5.1.1-Kit"]}.
Proof. vm_compute. reflexivity. Qed.
End CleanseOptionsFacts.

(** ** isPathValid *)

Module IsPathValidFacts.
Import UtilHelper Spec.

Lemma tolerated_not_enoent a : tolerated a -> ~ enoent a.
Proof.
  unfold tolerated, enoent. intros [E | (code & E & Hne)] E'; congruence.
Qed.

Lemma to_test_succ platform n segments :
  to_test platform (S n) segments = segments.
Proof.
  revert n; induction segments as [|s r IH]; intros n; simpl; [reflexivity|].
  now rewrite IH.
Qed.

Lemma to_test_0 platform segments :
  to_test platform 0 segments = tested_segments platform segments.
Proof.
  destruct segments as [|s r]; simpl; [reflexivity|].
  rewrite to_test_succ. reflexivity.
Qed.

Section Trace.
Context {FS : Type} `{FileSystem FS} `{Path}.


(** What the callback of [some] does from any position. *)
Lemma some_segment_run platform segments :
  forall index cur fs log,
    let p := some_segment platform segments index cur fs log in
    exists new,
      attempts p = log ++ new /\
      probe_trace fs cur new (probe_fs p) (currentPath p) /\
      map att_segment new `prefix_of` to_test platform index segments /\
      (hasInvalidSegments p = true ->
         exists pre a, new = pre ++ [a] /\ enoent a /\ Forall tolerated pre) /\
      (hasInvalidSegments p = false ->
         Forall tolerated new /\
         map att_segment new = to_test platform index segments).
Proof.
  induction segments as [|segment rest IH]; intros index cur fs log; simpl.
  - exists []. rewrite app_nil_r. repeat split; auto.
    + constructor.
    + discriminate.
  - destruct ((index =? 0)%nat && String.eqb platform "win32"
              && is_drive_letter segment) eqn:Eskip.
    + apply IH.
    + destruct (mkdirSync fs (join cur segment)) as [fs' [code|]] eqn:Emk.
      * destruct (String.eqb_spec code "ENOENT") as [->|Hne].
        -- exists [mkAttempt segment (join cur segment) (Some "ENOENT")].
           simpl. repeat split.
           ++ eapply trace_failed; [exact Emk | constructor].
           ++ exists (to_test platform (S index) rest). reflexivity.
           ++ intros _. exists [], (mkAttempt segment (join cur segment) (Some "ENOENT")).
              repeat split. constructor.
           ++ discriminate.
           ++ discriminate.
        -- destruct (IH (S index) cur fs'
                       (log ++ [mkAttempt segment (join cur segment) (Some code)]))
             as (new & Hlog & Htr & Hpre & Hbad & Hgood).
           assert (Htol : tolerated (mkAttempt segment (join cur segment) (Some code)))
             by (right; exists code; split; [reflexivity | exact Hne]).
           exists (mkAttempt segment (join cur segment) (Some code) :: new).
           split; [rewrite Hlog, <- app_assoc; reflexivity|].
           split; [eapply trace_failed; eassumption|].
           split; [simpl; now apply prefix_cons|].
           split.
           ++ intros Hb. destruct (Hbad Hb) as (pre & a & -> & Ha & Hpre').
              exists (mkAttempt segment (join cur segment) (Some code) :: pre), a.
              repeat split; auto.
           ++ intros Hg. destruct (Hgood Hg) as [Hall Hsegs].
              split; [now constructor | simpl; now rewrite Hsegs].
      * destruct (IH (S index) (join cur segment) fs'
                     (log ++ [mkAttempt segment (join cur segment) None]))
          as (new & Hlog & Htr & Hpre & Hbad & Hgood).
        assert (Htol : tolerated (mkAttempt segment (join cur segment) None))
          by (left; reflexivity).
        exists (mkAttempt segment (join cur segment) None :: new).
        split; [rewrite Hlog, <- app_assoc; reflexivity|].
        split; [eapply trace_created; eassumption|].
        split; [simpl; now apply prefix_cons|].
        split.
        ++ intros Hb. destruct (Hbad Hb) as (pre & a & -> & Ha & Hpre').
           exists (mkAttempt segment (join cur segment) None :: pre), a.
           repeat split; auto.
        ++ intros Hg. destruct (Hgood Hg) as [Hall Hsegs].
           split; [now constructor | simpl; now rewrite Hsegs].
Qed.

Lemma pick_testDir_fresh fs tmpDir names testDir :
  pick_testDir fs tmpDir names = Some testDir ->
  In testDir names /\ existsSync fs (join tmpDir testDir) = false.
Proof.
  unfold pick_testDir. intros Hfind. apply find_some in Hfind as [Hin Hex].
  split; [exact Hin|]. now apply negb_true_iff in Hex.
Qed.

(** The loop keeps running exactly when every name drawn is taken. *)
Lemma pick_testDir_none fs tmpDir names :
  pick_testDir fs tmpDir names = None <->
  Forall (fun d => existsSync fs (join tmpDir d) = true) names.
Proof.
  unfold pick_testDir. induction names as [|d r IH]; simpl.
  - split; [constructor | reflexivity].
  - destruct (existsSync fs (join tmpDir d)) eqn:E; simpl.
    + rewrite IH. split; [now constructor | intros Hall; now inversion Hall].
    + split; [discriminate | intros Hall; inversion Hall; congruence].
Qed.
End Trace.
(** C5.  Given an unused name for the scratch directory and its
    creation, [isPathValid] returns, after a run of [mkdirSync] on the
    segments of the path, each joined to the scratch directory or to the
    directory created last.  The run covers the segments in order, the
    first excepted when it is a drive letter on win32.  The result is
    false exactly when a creation failed with ENOENT (the run stops
    there), and true exactly when every creation succeeded or failed
    with another code, in which case every segment to test was tried. *)
Theorem isPathValid_spec {FS : Type} `{FileSystem FS} `{Path}
    (fs : FS) (tmpDir platform : string) (names : list string)
    (pathToTest testDir : string) (fs1 : FS) :
  pick_testDir fs tmpDir names = Some testDir ->
  mkdirSync fs (join tmpDir testDir) = (fs1, None) ->
  exists valid removed fsN log,
    isPathValid fs tmpDir platform names pathToTest
      = Returned valid (join tmpDir testDir) removed (rimraf fsN removed) log /\
    existsSync fs (join tmpDir testDir) = false /\
    probe_trace fs1 (join tmpDir testDir) log fsN removed /\
    map att_segment log
      `prefix_of` tested_segments platform (split sep pathToTest) /\
    (valid = false <-> Exists enoent log) /\
    (valid = true <-> Forall tolerated log) /\
    (valid = true ->
       map att_segment log = tested_segments platform (split sep pathToTest)) /\
    (valid = false ->
       exists pre a, log = pre ++ [a] /\ enoent a /\ Forall tolerated pre).
Proof.
  intros Hpick Hmk.
  destruct (pick_testDir_fresh _ _ _ _ Hpick) as [_ Hfresh].
  unfold isPathValid. rewrite Hpick, Hmk.
  destruct (some_segment_run platform (split sep pathToTest) 0
              (join tmpDir testDir) fs1 [])
    as (new & Hlog & Htr & Hpre & Hbad & Hgood).
  rewrite to_test_0 in Hpre, Hgood. simpl in Hlog.
  set (p := some_segment platform (split sep pathToTest) 0
              (join tmpDir testDir) fs1 []) in *.
  exists (negb (hasInvalidSegments p)), (currentPath p), (probe_fs p), (attempts p).
  rewrite Hlog.
  split; [reflexivity|]. split; [exact Hfresh|]. split; [exact Htr|].
  split; [exact Hpre|].
  destruct (hasInvalidSegments p) eqn:Einv; simpl.
  - destruct (Hbad eq_refl) as (pre & a & -> & Ha & Hpre').
    assert (Hex : Exists enoent (pre ++ [a]))
      by (apply Exists_app; right; now constructor).
    split; [split; auto|].
    split; [split; [discriminate|]|].
    { intros Hall. exfalso. apply Forall_app in Hall as [_ Hall].
      inversion Hall as [|? ? Htol _]; subst.
      exact (tolerated_not_enoent _ Htol Ha). }
    split; [discriminate|].
    intros _. exists pre, a. auto.
  - destruct (Hgood eq_refl) as [Hall Hsegs].
    split; [split; [discriminate|]|].
    { intros Hex. exfalso. apply Exists_exists in Hex as (a & Hin & Ha).
      rewrite Forall_forall in Hall.
      apply (tolerated_not_enoent a); [apply Hall; exact Hin | exact Ha]. }
    split; [split; auto|].
    split; [auto | discriminate].
Qed.
End IsPathValidFacts.

(** ** isPathValid on the small file system *)

Module IsPathValidRuns.
Import UtilHelper SimpleFs IsPathValidFacts Spec.

Lemma isPathValid_spec_witness :
  exists valid removed fsN log,
    @isPathValid (list string) win32_fs win32_path
      ["C:\Temp"] "C:\Temp" "win32" ["d1"] "C:\a\b<c\d"
      = Returned valid (@join win32_path "C:\Temp" "d1") removed
                 (@rimraf _ win32_fs fsN removed) log /\
    @existsSync _ win32_fs ["C:\Temp"] (@join win32_path "C:\Temp" "d1") = false /\
    @probe_trace _ win32_fs win32_path
      ["C:\Temp"; "C:\Temp\d1"] (@join win32_path "C:\Temp" "d1") log fsN removed /\
    map att_segment log
      `prefix_of` tested_segments "win32" (split (@sep win32_path) "C:\a\b<c\d") /\
    (valid = false <-> Exists enoent log) /\
    (valid = true <-> Forall tolerated log) /\
    (valid = true ->
       map att_segment log
       = tested_segments "win32" (split (@sep win32_path) "C:\a\b<c\d")) /\
    (valid = false ->
       exists pre a, log = pre ++ [a] /\ enoent a /\ Forall tolerated pre).
Proof.
  apply (@isPathValid_spec (list string) win32_fs win32_path
           ["C:\Temp"] "C:\Temp" "win32" ["d1"] "C:\a\b<c\d" "d1"
           ["C:\Temp"; "C:\Temp\d1"]); reflexivity.
Defined.

(** The run of the witness: the drive letter is skipped, [a] is
    created, [b<c] is refused with ENOENT, [d] is not tried. *)
Example isPathValid_win32_invalid :
  isPathValid_win32 ["C:\Temp"] "C:\Temp" "win32" ["d1"] "C:\a\b<c\d"
  = Returned false "C:\Temp\d1" "C:\Temp\d1\a" ["C:\Temp"; "C:\Temp\d1"]
      [ mkAttempt "a" "C:\Temp\d1\a" None;
        mkAttempt "b<c" "C:\Temp\d1\a\b<c" (Some "ENOENT") ].
Proof. reflexivity. Qed.

(** A failure with another code is passed over: the empty segments of
    [/a/] meet EEXIST. *)
Example isPathValid_posix_permissive :
  isPathValid_posix ["/tmp"] "/tmp" "linux" ["d1"] "/a/"
  = Returned true "/tmp/d1" "/tmp/d1/a" ["/tmp"; "/tmp/d1"]
      [ mkAttempt "" "/tmp/d1" (Some "EEXIST");
        mkAttempt "a" "/tmp/d1/a" None;
        mkAttempt "" "/tmp/d1/a" (Some "EEXIST") ].
Proof. reflexivity. Qed.

(** The name drawn first is taken: the loop draws again. *)
Example isPathValid_second_name :
  isPathValid_posix ["/tmp"; "/tmp/d1"] "/tmp" "linux" ["d1"; "d2"] ""
  = Returned true "/tmp/d2" "/tmp/d2" ["/tmp"; "/tmp/d1"]
      [ mkAttempt "" "/tmp/d2" (Some "EEXIST") ].
Proof. reflexivity. Qed.


(** C6.  [isPathValid("a")] on a POSIX system with an empty /tmp: the
    path is judged valid, the scratch directory /tmp/d1 and the segment
    directory /tmp/d1/a are created, and [rimraf] is handed /tmp/d1/a,
    the directory created last.  Once it has completed the scratch
    directory /tmp/d1 is still there: the cleanup does not remove it. *)
Theorem isPathValid_scratch_remains :
  isPathValid_posix ["/tmp"] "/tmp" "linux" ["d1"] "a"
    = Returned true "/tmp/d1" "/tmp/d1/a" ["/tmp"; "/tmp/d1"]
        [ mkAttempt "a" "/tmp/d1/a" None ] /\
  @existsSync _ posix_fs ["/tmp"] "/tmp/d1" = false /\
  @existsSync _ posix_fs ["/tmp"; "/tmp/d1"] "/tmp/d1" = true /\
  @rimraf _ posix_fs ["/tmp"; "/tmp/d1"; "/tmp/d1/a"] "/tmp/d1/a"
    = ["/tmp"; "/tmp/d1"] /\
  @rimraf _ posix_fs ["/tmp"; "/tmp/d1"; "/tmp/d1/a"] "/tmp/d1" = ["/tmp"].
Proof. repeat split. Qed.

(** Only when no segment was created is the scratch directory the path
    handed to [rimraf], and removed. *)
Example isPathValid_scratch_removed_when_nothing_created :
  exists fs' log,
    isPathValid_win32 ["C:\Temp"] "C:\Temp" "win32" ["d1"] "a<"
      = Returned false "C:\Temp\d1" "C:\Temp\d1" fs' log /\
    fs' = ["C:\Temp"].
Proof. eexists _, _. split; reflexivity. Qed.
End IsPathValidRuns.

(** ** The kit command *)

Module KitFacts.
Import UtilHelper Kit KitTest.

Section Flow.
Variable registry : KitRegistry.
Variable recognized : string -> bool.

Lemma resolveKit_id id k : resolveKit registry id = Ok k -> kit_id k = id.
Proof.
  unfold resolveKit.
  destruct (find _ registry) as [k'|] eqn:E; [|discriminate].
  intros [= <-]. apply find_some in E as [_ E].
  now apply String.eqb_eq in E.
Qed.

Lemma resolveKit_unknown id :
  (forall k, In k registry -> kit_id k <> id) ->
  resolveKit registry id = Err (mkKitError InvalidKit [id]).
Proof.
  intros Hno. unfold resolveKit.
  destruct (find _ registry) as [k|] eqn:E; [|reflexivity].
  apply find_some in E as [Hin E]. apply String.eqb_eq in E.
  now destruct (Hno k Hin).
Qed.

(** A selection that fails leaves the world as it was. *)
Lemma select_failure w target w' e :
  select registry recognized w target = (w', Err e) -> w' = w.
Proof.
  unfold select, resolveCordovaVersion, write.
  destruct target as [id|version].
  - destruct (resolveKit registry id); [|congruence].
    destruct (writable w); congruence.
  - destruct (recognized version); [|congruence].
    destruct (writable w); congruence.
Qed.

Lemma select_success w target w' :
  select registry recognized w target = (w', Ok tt) ->
  writable w = true /\
  match target with
  | ByKit id =>
      exists k, resolveKit registry id = Ok k /\
                w' = mkWorld (Parsed (manifest_of_kit k)) true (jsonFiles w)
  | ByCordova version =>
      recognized version = true /\
      w' = mkWorld (Parsed (manifest_of_cli version)) true (jsonFiles w)
  end.
Proof.
  unfold select, resolveCordovaVersion, write.
  destruct target as [id|version].
  - destruct (resolveKit registry id) as [k|]; [|congruence].
    destruct (writable w); [|congruence].
    intros [= <-]. eauto.
  - destruct (recognized version); [|congruence].
    destruct (writable w); [|congruence].
    intros [= <-]. eauto.
Qed.
End Flow.

(** The scenarios of the suite, on the model: each check passes, with
    the telemetry the suite expects. *)
Example suite_select_cordova_invalid :
  snd <$> runKitCommandFailureCaseAndVerifyTacoJson suite_registry semver_like
            (createKitProject suite_registry semver_like "5.1.1-Kit")
            ["select"; "--cordova"; "InvalidCordovaCliVersion"]
            expectedKitTacoJsonKeyValues InvalidVersion
  = Some (Pass tt).
Proof. vm_compute. reflexivity. Qed.

Example suite_select_cordova :
  snd <$> runKitCommandSuccessCaseAndVerifyTacoJson suite_registry semver_like
            (createKitProject suite_registry semver_like "5.1.1-Kit")
            ["select"; "--cordova"; "5.1.1"] expectedCliTacoJsonKeyValues
  = Some (Pass (<["options.cordova" := mkProp false "5.1.1"]>
                  {["subCommand" := mkProp false "select"]})).
Proof. vm_compute. reflexivity. Qed.

Example suite_select_kit_invalid :
  snd <$> runKitCommandFailureCaseAndVerifyTacoJson suite_registry semver_like
            (createCliProject suite_registry semver_like "5.1.1")
            ["select"; "--kit"; "InvalidKit"]
            expectedCliTacoJsonKeyValues InvalidKit
  = Some (Pass tt).
Proof. vm_compute. reflexivity. Qed.

Example suite_select_kit :
  snd <$> runKitCommandSuccessCaseAndVerifyTacoJson suite_registry semver_like
            (createCliProject suite_registry semver_like "5.1.1")
            ["select"; "--kit"; "5.1.1-Kit"] expectedKitTacoJsonKeyValues
  = Some (Pass (<["options.kit" := mkProp false "5.1.1-Kit"]>
                  {["subCommand" := mkProp false "select"]})).
Proof. vm_compute. reflexivity. Qed.

(** A manifest with the key [kit] alone would not pass the check made
    after [select --kit 5.1.1-Kit]. *)
Example suite_rejects_kit_alone :
  verifyTacoJson (mkWorld (Parsed {["kit" := "5.1.1-Kit"]}) true ∅)
                 expectedKitTacoJsonKeyValues = false.
Proof. vm_compute. reflexivity. Qed.

Example suite_kit :
  snd <$> kitRun suite_registry semver_like fresh_world []
  = Some (Ok {["subCommand" := mkProp false "list"]}).
Proof. vm_compute. reflexivity. Qed.

Example suite_list_kit :
  snd <$> kitRun suite_registry semver_like fresh_world
            ["list"; "--kit"; "5.1.1-Kit"]
  = Some (Ok (<["options.kit" := mkProp false "5.1.1-Kit"]>
                {["subCommand" := mkProp false "list"]})).
Proof. vm_compute. reflexivity. Qed.

Example suite_list_json :
  kitRun suite_registry semver_like fresh_world
    ["list"; "--json"; "/tmp/temp.json"]
  = Some (mkWorld Missing true {["/tmp/temp.json"]},
          Ok (<["options.json" := mkProp true "/tmp/temp.json"]>
                {["subCommand" := mkProp false "list"]})).
Proof. vm_compute. reflexivity. Qed.

(** Selecting the kit 5.1.1-Kit on the CLI project of the suite
    succeeds, and the manifest read afterwards is the suite's
    [expectedKitTacoJsonKeyValues]: it is not [{kit: "5.1.1-Kit"}], it
    holds the key [kit] and the key [cordova-cli] at once. *)
Lemma select_kit_writes_both_keys :
  snd (select suite_registry semver_like
         (createCliProject suite_registry semver_like "5.1.1")
         (ByKit "5.1.1-Kit")) = Ok tt /\
  read (fst (select suite_registry semver_like
               (createCliProject suite_registry semver_like "5.1.1")
               (ByKit "5.1.1-Kit")))
    = Ok expectedKitTacoJsonKeyValues /\
  expectedKitTacoJsonKeyValues <> {["kit" := "5.1.1-Kit"]} /\
  expectedKitTacoJsonKeyValues !! "kit" = Some "5.1.1-Kit" /\
  expectedKitTacoJsonKeyValues !! "cordova-cli" = Some "5.1.1".
Proof.
  split; [reflexivity|]. split; [vm_compute; reflexivity|].
  split; [|split; reflexivity].
  intros E. apply (f_equal (fun m : manifest => m !! "cordova-cli")) in E.
  vm_compute in E. discriminate.
Qed.

(** C1, as amended.  After a successful selection the manifest read back
    is exactly [{kit: id, "cordova-cli": v}] for the kit [id], [v] being
    the Cordova CLI version the kit pins, and exactly
    [{"cordova-cli": version}] for a CLI version.  The key [cordova-cli]
    is always there, the key [kit] exactly after a kit selection, and
    there is no other key. *)
Theorem select_manifest (registry : KitRegistry) (recognized : string -> bool)
    (w : World) (target : Selection) (w' : World) :
  select registry recognized w target = (w', Ok tt) ->
  match target with
  | ByKit id =>
      exists k, resolveKit registry id = Ok k /\
        read w' = Ok (<["kit" := id]> {["cordova-cli" := kit_cordova_cli k]})
  | ByCordova version => read w' = Ok {["cordova-cli" := version]}
  end /\
  forall m, read w' = Ok m ->
    is_Some (m !! "cordova-cli") /\
    (is_Some (m !! "kit") <-> exists id, target = ByKit id) /\
    (forall key, is_Some (m !! key) -> key = "kit" \/ key = "cordova-cli").
Proof.
  intros Hsel. apply select_success in Hsel as [_ Hsel].
  destruct target as [id|version].
  - destruct Hsel as (k & Hk & ->).
    pose proof (resolveKit_id _ _ _ Hk) as Hid.
    unfold read, manifest_of_kit; simpl. rewrite Hid. split; [eauto|].
    intros m [= <-]. split; [|split].
    + rewrite lookup_insert_ne by discriminate.
      rewrite lookup_singleton_eq. eauto.
    + rewrite lookup_insert_eq. split; eauto.
    + intros key [v Hv].
      destruct (decide (key = "kit")) as [->|Hne]; [now left|].
      rewrite lookup_insert_ne in Hv by congruence.
      apply lookup_singleton_Some in Hv as [<- _]. now right.
  - destruct Hsel as (_ & ->).
    unfold read, manifest_of_cli; simpl. split; [reflexivity|].
    intros m [= <-]. split; [|split].
    + rewrite lookup_singleton_eq. eauto.
    + rewrite lookup_singleton_ne by discriminate.
      split; [intros [? ?]; discriminate | intros [? ?]; discriminate].
    + intros key [v Hv].
      apply lookup_singleton_Some in Hv as [<- _]. now right.
Qed.

Lemma select_manifest_witness :
  (exists k, resolveKit suite_registry "5.1.1-Kit" = Ok k /\
     read (mkWorld (Parsed expectedKitTacoJsonKeyValues) true ∅)
     = Ok (<["kit" := "5.1.1-Kit"]> {["cordova-cli" := kit_cordova_cli k]})) /\
  read (mkWorld (Parsed expectedCliTacoJsonKeyValues) true ∅)
    = Ok {["cordova-cli" := "5.1.1"]}.
Proof.
  split.
  - apply (proj1 (select_manifest suite_registry semver_like
                    (createCliProject suite_registry semver_like "5.1.1")
                    (ByKit "5.1.1-Kit")
                    (mkWorld (Parsed expectedKitTacoJsonKeyValues) true ∅)
                    eq_refl)).
  - apply (proj1 (select_manifest suite_registry semver_like
                    (createKitProject suite_registry semver_like "5.1.1-Kit")
                    (ByCordova "5.1.1")
                    (mkWorld (Parsed expectedCliTacoJsonKeyValues) true ∅)
                    eq_refl)).
Defined.
(** On the kit project of the suite the selection of the CLI version
    InvalidCordovaCliVersion fails with InvalidVersion and the world is
    untouched; the manifest read afterwards is the suite's
    [expectedKitTacoJsonKeyValues], with both keys, and not
    [{kit: "5.1.1-Kit"}]. *)
Lemma failed_select_manifest_has_both_keys :
  select suite_registry semver_like
    (createKitProject suite_registry semver_like "5.1.1-Kit")
    (ByCordova "InvalidCordovaCliVersion")
  = (createKitProject suite_registry semver_like "5.1.1-Kit",
     Err (mkKitError InvalidVersion ["InvalidCordovaCliVersion"])) /\
  read (createKitProject suite_registry semver_like "5.1.1-Kit")
    = Ok expectedKitTacoJsonKeyValues /\
  read (createKitProject suite_registry semver_like "5.1.1-Kit")
    <> Ok {["kit" := "5.1.1-Kit"]}.
Proof.
  split; [reflexivity|]. split; [vm_compute; reflexivity|].
  intros E.
  apply (f_equal (fun r : result manifest =>
                    match r with
                    | Ok m => m !! "cordova-cli"
                    | Err _ => None
                    end)) in E.
  vm_compute in E. discriminate.
Qed.

(** C2, as amended.  A selection that fails leaves the world, and so the
    manifest, as it was.  On a project whose manifest reads
    [{"cordova-cli": "5.1.1"}], selecting the kit InvalidKit, unknown to
    the registry, fails with InvalidKit and the manifest still reads
    [{"cordova-cli": "5.1.1"}].  On a project whose manifest is the kit
    record [{kit: "5.1.1-Kit", "cordova-cli": "5.1.1"}], selecting the
    CLI version InvalidCordovaCliVersion, not of the recognized pattern,
    fails with InvalidVersion and the manifest still reads
    [{kit: "5.1.1-Kit", "cordova-cli": "5.1.1"}]. *)
Theorem failed_select_preserves_manifest
    (registry : KitRegistry) (recognized : string -> bool) :
  (forall w target w' e,
     select registry recognized w target = (w', Err e) ->
     w' = w /\ read w' = read w) /\
  (forall w,
     (forall k, In k registry -> kit_id k <> "InvalidKit") ->
     tacoJson w = Parsed expectedCliTacoJsonKeyValues ->
     exists w' e,
       select registry recognized w (ByKit "InvalidKit") = (w', Err e) /\
       kerr_code e = InvalidKit /\
       read w' = Ok (({["cordova-cli" := "5.1.1"]}) : manifest)) /\
  (forall w,
     recognized "InvalidCordovaCliVersion" = false ->
     tacoJson w = Parsed expectedKitTacoJsonKeyValues ->
     exists w' e,
       select registry recognized w (ByCordova "InvalidCordovaCliVersion")
         = (w', Err e) /\
       kerr_code e = InvalidVersion /\
       read w' = Ok ((<["kit" := "5.1.1-Kit"]> {["cordova-cli" := "5.1.1"]})
                      : manifest)).
Proof.
  split; [|split].
  - intros w target w' e Hsel.
    apply select_failure in Hsel as ->. split; reflexivity.
  - intros w Hno Hm.
    exists w, (mkKitError InvalidKit ["InvalidKit"]).
    unfold select. rewrite (resolveKit_unknown _ _ Hno).
    repeat split. unfold read. now rewrite Hm.
  - intros w Hbad Hm.
    exists w, (mkKitError InvalidVersion ["InvalidCordovaCliVersion"]).
    unfold select, resolveCordovaVersion. rewrite Hbad.
    repeat split. unfold read. now rewrite Hm.
Qed.

Lemma failed_select_preserves_manifest_witness :
  (exists w' e,
     select suite_registry semver_like
       (createCliProject suite_registry semver_like "5.1.1")
       (ByKit "InvalidKit") = (w', Err e) /\
     kerr_code e = InvalidKit /\
     read w' = Ok (({["cordova-cli" := "5.1.1"]}) : manifest)) /\
  (exists w' e,
     select suite_registry semver_like
       (createKitProject suite_registry semver_like "5.1.1-Kit")
       (ByCordova "InvalidCordovaCliVersion") = (w', Err e) /\
     kerr_code e = InvalidVersion /\
     read w' = Ok ((<["kit" := "5.1.1-Kit"]> {["cordova-cli" := "5.1.1"]})
                    : manifest)).
Proof.
  destruct (failed_select_preserves_manifest suite_registry semver_like)
    as (_ & Hkit & Hcli).
  split.
  - apply Hkit; [|reflexivity].
    intros k [<-|[]]. discriminate.
  - apply Hcli; reflexivity.
Defined.

Lemma telemetry_of_run registry recognized w c w' t :
  run registry recognized w c = (w', Ok t) -> t = telemetry_of c.
Proof.
  unfold run.
  destruct (match c with
            | List kit json => list_kits registry w kit json
            | Select target => select registry recognized w target
            end) as [w1 [u|e]]; congruence.
Qed.

(** C7.  The telemetry of a successful run of the command records the
    sub-command, not personally identifiable, and each option used under
    the key [options.<name>]: the kit ID and the CLI version are tagged
    not personally identifiable ([isPii] false), the path given to
    [--json] is tagged personally identifiable ([isPii] true).  For
    [select] the telemetry is exactly the sub-command and the one option
    used. *)
Theorem run_telemetry (registry : KitRegistry) (recognized : string -> bool)
    (w : World) (c : Command) (w' : World) (t : telemetry) :
  run registry recognized w c = (w', Ok t) ->
  t !! "subCommand" = Some (mkProp false (subCommand_of c)) /\
  match c with
  | Select (ByKit id) =>
      t = <["options.kit" := mkProp false id]>
            {["subCommand" := mkProp false "select"]}
  | Select (ByCordova version) =>
      t = <["options.cordova" := mkProp false version]>
            {["subCommand" := mkProp false "select"]}
  | List kit json =>
      (forall id, kit = Some id ->
                  t !! "options.kit" = Some (mkProp false id)) /\
      (forall path, json = Some path ->
                    t !! "options.json" = Some (mkProp true path)) /\
      (kit = None -> t !! "options.kit" = None) /\
      (json = None -> t !! "options.json" = None)
  end.
Proof.
  intros Hrun. apply telemetry_of_run in Hrun as ->.
  destruct c as [[id|] [path|] | [id|version]];
    unfold telemetry_of, addPropertiesFromOptions, option_property; cbn;
    repeat split; try (intros ? [= <-]); try discriminate; intros;
    simplify_map_eq; reflexivity.
Qed.

Lemma run_telemetry_witness :
  ((<["options.kit" := mkProp false "5.1.1-Kit"]>
      {["subCommand" := mkProp false "select"]} : telemetry) !! "subCommand"
     = Some (mkProp false (subCommand_of (Select (ByKit "5.1.1-Kit")))) /\
   (<["options.kit" := mkProp false "5.1.1-Kit"]>
      {["subCommand" := mkProp false "select"]} : telemetry)
     = <["options.kit" := mkProp false "5.1.1-Kit"]>
         {["subCommand" := mkProp false "select"]}) /\
  (<["options.json" := mkProp true "/tmp/temp.json"]>
     {["subCommand" := mkProp false "list"]} : telemetry) !! "options.json"
    = Some (mkProp true "/tmp/temp.json").
Proof.
  split.
  - apply (run_telemetry suite_registry semver_like
             (createCliProject suite_registry semver_like "5.1.1")
             (Select (ByKit "5.1.1-Kit"))
             (mkWorld (Parsed expectedKitTacoJsonKeyValues) true ∅)).
    reflexivity.
  - apply (proj1 (proj2 (proj2
             (run_telemetry suite_registry semver_like fresh_world
                (List None (Some "/tmp/temp.json"))
                (mkWorld Missing true {["/tmp/temp.json"]}) _ eq_refl))));
      reflexivity.
Defined.
End KitFacts.

(** * Further statements *)

(** ** App names and quoting, continued *)

Module StringMore.
Import JsString UtilHelper Spec SpecTree StringFacts.

(** X2.  [isValidCordovaAppName] of a concatenation is the conjunction of
    the two parts' validity: a name is refused as soon as one part is. *)
Theorem isValidCordovaAppName_app (a b : jsstring) :
  isValidCordovaAppName (a ++ b)
  = isValidCordovaAppName a && isValidCordovaAppName b.
Proof.
  induction a as [|code rest IH]; simpl; [reflexivity|].
  destruct ((code <? 32)%N || truthy_opt (InvalidAppNameChars_get code));
    [reflexivity | exact IH].
Qed.

Lemma replaceAll_length s :
  length (replaceAll dquote [backslash; dquote] s)
  = (length s + count_dquotes s)%nat.
Proof.
  unfold count_dquotes.
  induction s as [|x r IH]; [reflexivity|].
  cbn -[N.eqb]. rewrite (N.eqb_sym dquote x).
  destruct (x =? dquote)%N; cbn -[N.eqb]; rewrite IH; lia.
Qed.

Lemma replaceAll_count s :
  count_dquotes (replaceAll dquote [backslash; dquote] s) = count_dquotes s.
Proof.
  unfold count_dquotes.
  induction s as [|x r IH]; [reflexivity|].
  cbn -[N.eqb].
  destruct (N.eqb_spec x dquote) as [->|Hne]; cbn -[N.eqb].
  - rewrite N.eqb_refl. change (dquote =? backslash)%N with false.
    cbn -[N.eqb]. now rewrite IH.
  - destruct (N.eqb_spec dquote x) as [E|_]; [congruence|].
    exact IH.
Qed.

Lemma replaceAll_keeps_space s :
  In space s -> In space (replaceAll dquote [backslash; dquote] s).
Proof.
  induction s as [|x r IH]; simpl; [tauto|].
  intros [->|Hin].
  - simpl. now left.
  - destruct (x =? dquote)%N; simpl; auto.
Qed.

Lemma quoted_form input :
  In space input ->
  quotesAroundIfNecessary input
  = dquote :: replaceAll dquote [backslash; dquote] input ++ [dquote].
Proof.
  intros Hin. unfold quotesAroundIfNecessary, indexOf.
  pose proof (indexOfFrom_ge space input 0%Z ltac:(lia) Hin) as Hge.
  destruct (Z.ltb_spec (-1) (indexOfFrom space input 0)) as [_|Hle]; [|lia].
  reflexivity.
Qed.

(** X3.  For an input with a space, [quotesAroundIfNecessary] adds the two
    surrounding quotes and one backslash per double quote of the input;
    the result still has a space and two more double quotes, so that a
    second application quotes again: the function is not idempotent. *)
Theorem quotesAroundIfNecessary_twice (input : jsstring) :
  In space input ->
  length (quotesAroundIfNecessary input)
    = (length input + 2 + count_dquotes input)%nat /\
  In space (quotesAroundIfNecessary input) /\
  length (quotesAroundIfNecessary (quotesAroundIfNecessary input))
    = (length input + 6 + 2 * count_dquotes input)%nat /\
  quotesAroundIfNecessary (quotesAroundIfNecessary input)
    <> quotesAroundIfNecessary input.
Proof.
  intros Hin.
  assert (Hlen : length (quotesAroundIfNecessary input)
                 = (length input + 2 + count_dquotes input)%nat).
  { rewrite (quoted_form _ Hin). simpl.
    rewrite length_app, replaceAll_length. simpl. lia. }
  assert (Hsp : In space (quotesAroundIfNecessary input)).
  { rewrite (quoted_form _ Hin). right. apply in_or_app. left.
    now apply replaceAll_keeps_space. }
  assert (Hcount : count_dquotes (quotesAroundIfNecessary input)
                   = (2 + count_dquotes input)%nat).
  { rewrite (quoted_form _ Hin). unfold count_dquotes. simpl.
    rewrite List.filter_app, length_app. simpl.
    fold (count_dquotes (replaceAll dquote [backslash; dquote] input)).
    rewrite replaceAll_count. unfold count_dquotes. lia. }
  assert (Hlen2 : length (quotesAroundIfNecessary (quotesAroundIfNecessary input))
                  = (length input + 6 + 2 * count_dquotes input)%nat).
  { rewrite (quoted_form _ Hsp). simpl.
    rewrite length_app, replaceAll_length, Hlen, Hcount. simpl. lia. }
  repeat split; auto.
  intros E. rewrite E in Hlen2. lia.
Qed.

Lemma quotesAroundIfNecessary_twice_witness :
  length (quotesAroundIfNecessary (js "a b"))
    = (length (js "a b") + 2 + count_dquotes (js "a b"))%nat /\
  In space (quotesAroundIfNecessary (js "a b")) /\
  length (quotesAroundIfNecessary (quotesAroundIfNecessary (js "a b")))
    = (length (js "a b") + 6 + 2 * count_dquotes (js "a b"))%nat /\
  quotesAroundIfNecessary (quotesAroundIfNecessary (js "a b"))
    <> quotesAroundIfNecessary (js "a b").
Proof.
  apply (quotesAroundIfNecessary_twice (js "a b")).
  cbv. tauto.
Defined.
End StringMore.

(** ** Promises of the copies *)

Module PromiseMore.
Import JsString UtilHelper UtilHelperIO CopyFileFacts.

(** X4.  The promise of [copyFile] is pending until a stream emits an
    event, is settled by the first event and is not changed by any event
    after it.  When it is rejected, the error is FailedFileRead with the
    path [to] alone, or FailedFileWrite with the path [from] alone, and the
    inner error is one a stream emitted. *)
Theorem copyFile_settles_once (from to : string) (ev : StreamEvent)
    (events : list StreamEvent) :
  copyFile from to [] = Pending /\
  copyFile from to (ev :: events) = copyFile from to [ev] /\
  copyFile from to (ev :: events) <> Pending /\
  (forall err, copyFile from to (ev :: events) = Rejected err ->
     (errorCode err = FailedFileRead /\ errorArgs err = [to] /\
      ev = NewFileError (innerError err)) \/
     (errorCode err = FailedFileWrite /\ errorArgs err = [from] /\
      ev = OldFileError (innerError err))).
Proof.
  split; [reflexivity|].
  rewrite (copyFile_first from to ev events), (copyFile_first from to ev []).
  split; [reflexivity|]. split.
  - destruct ev; discriminate.
  - intros err. destruct ev; simpl; intros [= <-]; [left | right]; auto.
Qed.

Lemma recursive_settled_stays source target reports
    (d : promise unit TacoError) :
  d <> Pending -> fold_left (copyRecursive_on source target) reports d = d.
Proof.
  revert d; induction reports as [|r rest IH]; intros d Hd; simpl; [reflexivity|].
  rewrite IH; destruct d, r; simpl; congruence.
Qed.

(** X5.  The promise of [copyRecursive] is settled by the first report of
    [ncp] and later reports change nothing: it is fulfilled when that
    report carries no error, and otherwise rejected with the error
    FailedRecursiveCopy wrapping the reported error, with the source and
    the target, in this order, as its data. *)
Theorem copyRecursive_settles_once (source target : string)
    (report : option JsError) (reports : list (option JsError)) :
  copyRecursive source target [] = Pending /\
  copyRecursive source target (report :: reports)
    = match report with
      | None => Fulfilled tt
      | Some e => Rejected (mkTacoError FailedRecursiveCopy e [source; target])
      end.
Proof.
  split; [reflexivity|].
  unfold copyRecursive.
  destruct report as [e|]; simpl;
    rewrite recursive_settled_stays by discriminate; reflexivity.
Qed.
End PromiseMore.

(** ** Reading a file *)

Module ReadFileMore.
Import JsString UtilHelper UtilHelperIO SpecTree.

(** X6.  [readFileContentsSync] reads with the encoding utf-8 when none,
    or the empty one, is given; it throws what [fs.readFileSync] throws;
    and of the contents read it drops the first unit when that is the byte
    order mark U+FEFF and nothing else, so that of two leading marks the
    second stays. *)
Theorem readFileContentsSync_spec
    (readFileSync : string -> string -> completion jsstring)
    (filename : string) (encoding : option string) :
  (encoding = None \/ encoding = Some "" ->
   readFileContentsSync readFileSync filename encoding
   = readFileContentsSync readFileSync filename (Some "utf-8")) /\
  (forall e, readFileSync filename (encoding_or_default encoding) = Throw e ->
     readFileContentsSync readFileSync filename encoding = Throw e) /\
  (forall contents,
     readFileSync filename (encoding_or_default encoding) = Normal contents ->
     exists r,
       readFileContentsSync readFileSync filename encoding = Normal r /\
       (hd_error contents <> Some BOM -> r = contents) /\
       (forall rest, contents = BOM :: rest -> r = rest)).
Proof.
  split; [|split].
  - intros [-> | ->]; reflexivity.
  - intros e He. unfold readFileContentsSync. now rewrite He.
  - intros contents Hc. unfold readFileContentsSync. rewrite Hc.
    destruct contents as [|c r]; simpl.
    + exists []. repeat split; auto. intros rest E; discriminate.
    + destruct (N.eqb_spec c BOM) as [->|Hne].
      * exists r. repeat split.
        -- intros H. now destruct H.
        -- intros rest [= <-]. reflexivity.
      * exists (c :: r). repeat split.
        intros rest [= E _]. contradiction.
Qed.

Lemma readFileContentsSync_spec_witness :
  readFileContentsSync two_marks "a.txt" None
    = readFileContentsSync two_marks "a.txt" (Some "utf-8") /\
  readFileContentsSync two_marks "missing.txt" None
    = Throw (SystemError "ENOENT") /\
  exists r,
    readFileContentsSync two_marks "a.txt" None = Normal r /\
    (hd_error (BOM :: BOM :: js "a") <> Some BOM -> r = BOM :: BOM :: js "a") /\
    (forall rest, BOM :: BOM :: js "a" = BOM :: rest -> r = rest).
Proof.
  split; [|split].
  - apply (proj1 (readFileContentsSync_spec two_marks "a.txt" None)).
    left; reflexivity.
  - apply (proj1 (proj2 (readFileContentsSync_spec two_marks "missing.txt" None))).
    reflexivity.
  - apply (proj2 (proj2 (readFileContentsSync_spec two_marks "a.txt" None))).
    reflexivity.
Defined.
End ReadFileMore.

(** ** createDirectoryIfNecessary *)

Module CreateDirectoryMore.
Import UtilHelper UtilHelperIO SimpleFs SimpleMkdirp.

(** X7.  Provided a successful [mkdirp.sync(dir)] leaves [dir] in place:
    when [createDirectoryIfNecessary(dir)] returns, the directory exists,
    and the value is true exactly when the directory did not exist before
    and [mkdirp] created it.  A failure of [mkdirp] is passed over when
    the directory exists afterwards all the same (created by someone
    else); the error is thrown only when the directory existed neither
    before nor after, and it is the error of [mkdirp]. *)
Theorem createDirectoryIfNecessary_spec {FS : Type} `{FileSystem FS} `{Mkdirp FS}
    (fs : FS) (dir : string) :
  (forall fs1, mkdirpSync fs dir = (fs1, None) -> existsSync fs1 dir = true) ->
  match createDirectoryIfNecessary fs dir with
  | (fs', Normal created) =>
      existsSync fs' dir = true /\
      (created = true <->
       existsSync fs dir = false /\ mkdirpSync fs dir = (fs', None)) /\
      (existsSync fs dir = true -> fs' = fs)
  | (fs', Throw err) =>
      existsSync fs dir = false /\
      existsSync fs' dir = false /\
      mkdirpSync fs dir = (fs', Some err)
  end.
Proof.
  intros Hmk. unfold createDirectoryIfNecessary.
  destruct (existsSync fs dir) eqn:Ex; simpl.
  - split; [exact Ex|]. split; [|reflexivity].
    split; [discriminate | intros [? _]; discriminate].
  - destruct (mkdirpSync fs dir) as [fs1 [err|]] eqn:Emk.
    + destruct (existsSync fs1 dir) eqn:Ex1; simpl.
      * split; [exact Ex1|]. split; [|discriminate].
        split; [discriminate | intros [_ [= ]]].
      * auto.
    + split; [now apply Hmk|]. split; [|discriminate].
      split; auto.
Qed.

Lemma createDirectoryIfNecessary_spec_witness :
  match createDirectoryIfNecessary_posix ["/tmp"] "/tmp/a/b" with
  | (fs', Normal created) =>
      @existsSync _ posix_fs fs' "/tmp/a/b" = true /\
      (created = true <->
       @existsSync _ posix_fs ["/tmp"] "/tmp/a/b" = false /\
       @mkdirpSync _ posix_mkdirp ["/tmp"] "/tmp/a/b" = (fs', None)) /\
      (@existsSync _ posix_fs ["/tmp"] "/tmp/a/b" = true -> fs' = ["/tmp"])
  | (fs', Throw err) =>
      @existsSync _ posix_fs ["/tmp"] "/tmp/a/b" = false /\
      @existsSync _ posix_fs fs' "/tmp/a/b" = false /\
      @mkdirpSync _ posix_mkdirp ["/tmp"] "/tmp/a/b" = (fs', Some err)
  end.
Proof.
  apply (@createDirectoryIfNecessary_spec (list string) posix_fs posix_mkdirp
           ["/tmp"] "/tmp/a/b").
  intros fs1 E. vm_compute in E. injection E as <-. reflexivity.
Defined.

(** X8.  Provided a successful [mkdirp.sync(dir)] leaves [dir] in place:
    after a call of [createDirectoryIfNecessary(dir)] that returned, a
    second call returns false and leaves the file system as it is. *)
Theorem createDirectoryIfNecessary_again {FS : Type} `{FileSystem FS} `{Mkdirp FS}
    (fs fs' : FS) (dir : string) (created : bool) :
  (forall fs1, mkdirpSync fs dir = (fs1, None) -> existsSync fs1 dir = true) ->
  createDirectoryIfNecessary fs dir = (fs', Normal created) ->
  createDirectoryIfNecessary fs' dir = (fs', Normal false).
Proof.
  intros Hmk Hcall.
  assert (Hex : existsSync fs' dir = true).
  { revert Hcall. unfold createDirectoryIfNecessary.
    destruct (existsSync fs dir) eqn:Ex; simpl.
    - intros [= <- _]. exact Ex.
    - destruct (mkdirpSync fs dir) as [fs1 [err|]] eqn:Emk.
      + destruct (existsSync fs1 dir) eqn:Ex1; simpl; [|discriminate].
        intros [= <- _]. exact Ex1.
      + intros [= <- _]. now apply Hmk. }
  unfold createDirectoryIfNecessary. now rewrite Hex.
Qed.

Lemma createDirectoryIfNecessary_again_witness :
  createDirectoryIfNecessary_posix ["/tmp"; "/tmp/a"; "/tmp/a/b"] "/tmp/a/b"
  = (["/tmp"; "/tmp/a"; "/tmp/a/b"], Normal false).
Proof.
  apply (@createDirectoryIfNecessary_again (list string) posix_fs posix_mkdirp
           ["/tmp"] ["/tmp"; "/tmp/a"; "/tmp/a/b"] "/tmp/a/b" true).
  - intros fs1 E. vm_compute in E. injection E as <-. reflexivity.
  - reflexivity.
Defined.

(** A name the system rejects: [mkdirp] fails, the directory is not
    there, the error is thrown. *)
Example createDirectoryIfNecessary_throws :
  @createDirectoryIfNecessary (list string) posix_fs
     (simple_mkdirp_instance "/" win32_bad_name) ["/tmp"] "/tmp/a<b"
  = (["/tmp"], Throw (SystemError "ENOENT")).
Proof. reflexivity. Qed.
End CreateDirectoryMore.

(** ** cleanseOptions, continued *)

Module CleanseOptionsMore.
Import UtilHelper Spec SpecTree CleanseOptionsFacts.

(** The object a call binds its result to. *)
Lemma cleanseOptions_object {V : Type} (h : gmap positive (gmap string V))
    (options : positive) (o : gmap string V) (exclude : exclusion) :
  h !! options = Some o ->
  exists c,
    (cleanseOptions h options exclude).1 !! (cleanseOptions h options exclude).2
      = Some c /\
    forall k, c !! k = if kept exclude k then o !! k else None.
Proof.
  intros Ho. unfold cleanseOptions, new_object.
  set (cl := fresh (dom h)).
  assert (Hfresh : h !! cl = None)
    by (apply not_elem_of_dom; apply is_fresh).
  assert (Hne : options <> cl) by (intros ->; congruence).
  assert (Ho0 : <[cl := ∅]> h !! options = Some o)
    by (rewrite lookup_insert_ne by congruence; exact Ho).
  assert (Hkeys : forall k, k ∈ for_in_keys (<[cl := ∅]> h) options <->
                            is_Some (o !! k)).
  { intros k. unfold for_in_keys. rewrite Ho0. simpl.
    rewrite list_elem_of_fmap. split.
    - intros ([k' v] & -> & Hin). apply elem_of_map_to_list in Hin. eauto.
    - intros [v Hv]. exists (k, v). split; [reflexivity|].
      now apply elem_of_map_to_list. }
  destruct (cleanse_loop options cl exclude o Hne
              (for_in_keys (<[cl := ∅]> h) options)
              (fun k Hk => proj1 (Hkeys k) Hk)
              (<[cl := ∅]> h) ∅ Ho0 (lookup_insert_eq _ _ _))
    as (_ & c & Hc & Hin & Hout).
  exists c. split; [exact Hc|].
  intros k. destruct (kept exclude k) eqn:Ek.
  - destruct (o !! k) as [v|] eqn:Ev.
    + rewrite <- Ev. apply Hin; [apply Hkeys; rewrite Ev; eauto | exact Ek].
    + rewrite Hout; [apply lookup_empty|]. left. intros Hk'.
      apply Hkeys in Hk'. rewrite Ev in Hk'. now destruct Hk'.
  - rewrite Hout by (now right). apply lookup_empty.
Qed.

Lemma kept_names exclude k :
  kept exclude k = true <-> ~ In k (names_of exclude).
Proof.
  rewrite kept_true. destruct exclude; simpl; tauto.
Qed.

(** X9.  Cleansing the result of a cleansing gives the dictionary that
    one cleansing with the two exclusion lists put together gives; and
    cleansing with an empty list, like with [null] or [undefined], gives a
    copy of the input. *)
Theorem cleanseOptions_compose {V : Type} (h : gmap positive (gmap string V))
    (options : positive) (o : gmap string V) (first second : exclusion) :
  h !! options = Some o ->
  let '(h1, c1) := cleanseOptions h options first in
  let '(h2, c2) := cleanseOptions h1 c1 second in
  let '(h3, c3) :=
    cleanseOptions h options (Array (names_of first ++ names_of second)) in
  let '(h4, c4) := cleanseOptions h options (Array []) in
  h2 !! c2 = h3 !! c3 /\ h4 !! c4 = Some o.
Proof.
  intros Ho.
  destruct (cleanseOptions_object h options o first Ho) as (o1 & H1 & Hk1).
  destruct (cleanseOptions h options first) as [h1 c1]. simpl in H1.
  destruct (cleanseOptions_object h1 c1 o1 second H1) as (o2 & H2 & Hk2).
  destruct (cleanseOptions h1 c1 second) as [h2 c2]. simpl in H2.
  destruct (cleanseOptions_object h options o
              (Array (names_of first ++ names_of second)) Ho) as (o3 & H3 & Hk3).
  destruct (cleanseOptions h options (Array (names_of first ++ names_of second)))
    as [h3 c3]. simpl in H3.
  destruct (cleanseOptions_object h options o (Array []) Ho) as (o4 & H4 & Hk4).
  destruct (cleanseOptions h options (Array [])) as [h4 c4]. simpl in H4.
  split.
  - rewrite H2, H3. f_equal. apply map_eq. intros k.
    rewrite Hk2, Hk3, Hk1.
    destruct (kept (Array (names_of first ++ names_of second)) k) eqn:E3.
    + apply kept_names in E3. simpl in E3.
      assert (E1 : kept first k = true)
        by (apply kept_names; intros Hin; apply E3, in_or_app; now left).
      assert (E2 : kept second k = true)
        by (apply kept_names; intros Hin; apply E3, in_or_app; now right).
      now rewrite E1, E2.
    + destruct (kept second k) eqn:E2; [|reflexivity].
      destruct (kept first k) eqn:E1; [|reflexivity].
      apply kept_names in E1. apply kept_names in E2.
      assert (kept (Array (names_of first ++ names_of second)) k = true).
      { apply kept_names. simpl. intros Hin.
        apply in_app_or in Hin as [?|?]; tauto. }
      congruence.
  - rewrite H4. f_equal. apply map_eq. intros k. now rewrite Hk4.
Qed.

Lemma cleanseOptions_compose_witness :
  let '(h1, c1) := cleanseOptions sample_heap 1%positive (Array ["json"]) in
  let '(h2, c2) := cleanseOptions h1 c1 (Array ["kit"]) in
  let '(h3, c3) :=
    cleanseOptions sample_heap 1%positive
      (Array (names_of (Array ["json"]) ++ names_of (Array ["kit"]))) in
  let '(h4, c4) := cleanseOptions sample_heap 1%positive (Array []) in
  h2 !! c2 = h3 !! c3 /\
  h4 !! c4 = Some (<["kit" := "5.1.1-Kit"]> {["json" := "/tmp/kits.json"]}).
Proof.
  apply (cleanseOptions_compose sample_heap 1%positive _
           (Array ["json"]) (Array ["kit"])).
  reflexivity.
Defined.
End CleanseOptionsMore.

(** ** isPathValid, continued *)

Module IsPathValidMore.
Import UtilHelper SimpleFs Spec SpecTree IsPathValidFacts IsPathValidRuns.


Lemma concat_with_cons c x h t :
  concat_with c (String x h :: t) = String x (concat_with c (h :: t)).
Proof. destruct t; reflexivity. Qed.

Lemma split_nonempty c s : split c s <> [].
Proof.
  destruct s as [|x r]; simpl; [discriminate|].
  destruct (Ascii.eqb x c); [discriminate|].
  destruct (split c r); discriminate.
Qed.

(** X11.  [s.split(sep)], as [isPathValid] and [composeCompileCommand]
    use it with a one-character separator: the segments, put together
    again with the separator between them, are the string; there is one
    segment more than separators in the string, so at least one; and no
    segment holds the separator. *)
Theorem split_spec (c : ascii) (s : string) :
  concat_with c (split c s) = s /\
  length (split c s) = S (count_sep c s) /\
  Forall (fun segment => ~ In c (list_ascii_of_string segment)) (split c s).
Proof.
  unfold count_sep. induction s as [|x r (IHc & IHl & IHf)]; simpl.
  - repeat split. constructor; [simpl; tauto | constructor].
  - rewrite (Ascii.eqb_sym c x).
    destruct (Ascii.eqb_spec x c) as [->|Hne].
    + split; [|split].
      * pose proof (split_nonempty c r) as Hn.
        destruct (split c r) as [|h t]; [contradiction|].
        simpl in *. now rewrite IHc.
      * simpl. now rewrite IHl.
      * constructor; [simpl; tauto | exact IHf].
    + pose proof (split_nonempty c r) as Hn.
      destruct (split c r) as [|h t]; [contradiction|].
      split; [|split].
      * rewrite concat_with_cons. now rewrite IHc.
      * simpl in *. exact IHl.
      * inversion IHf as [|? ? Hh Ht]; subst.
        constructor; [|exact Ht].
        simpl. intros [E|Hin]; [congruence | contradiction].
Qed.
End IsPathValidMore.

(** ** The TypeScript build hook *)

Module TSCInvokerFacts.
Import UtilHelper TSCInvoker SpecTree.

(** Induction on a tree, with the property available for every entry of
    a directory. *)
Lemma fsnode_induction (P : fsnode -> Prop) :
  P File ->
  (forall entries, Forall (fun e => P (snd e)) entries -> P (Directory entries)) ->
  forall n, P n.
Proof.
  intros HF HD. fix rec 1. intros [|entries]; [exact HF|].
  apply HD. induction entries as [|e rest IH]; constructor; [apply rec | exact IH].
Qed.

Section Walk.
Variable join : string -> string -> string.
Variable extname : string -> string.

Lemma walk_entries_nil root result :
  walk_entries join extname root [] result = result.
Proof. reflexivity. Qed.

Lemma walk_entries_file root name rest result :
  walk_entries join extname root ((name, File) :: rest) result
  = walk_entries join extname root rest
      (if String.eqb (extname (join root name)) ".ts"
       then result ++ [join root name] else result).
Proof.
  unfold walk_entries; simpl.
  destruct (String.eqb (extname (join root name)) ".ts"); reflexivity.
Qed.

Lemma walk_entries_dir root name sub rest result :
  walk_entries join extname root ((name, Directory sub) :: rest) result
  = walk_entries join extname root rest
      (walk join extname (join root name) (Directory sub) result).
Proof. reflexivity. Qed.

(** Pushing onto [result] is appending to it what the walk finds. *)
Lemma walk_app node :
  forall root result,
    walk join extname root node result
    = result ++ walk join extname root node [].
Proof.
  induction node as [|entries IHe] using fsnode_induction; intros root result.
  - simpl. now rewrite app_nil_r.
  - change (walk_entries join extname root entries result
            = result ++ walk_entries join extname root entries []).
    revert result.
    induction entries as [|[name child] rest IH]; intros result.
    + rewrite !walk_entries_nil. now rewrite app_nil_r.
    + apply Forall_cons in IHe as [Hchild Hrest]. simpl in Hchild.
      specialize (IH Hrest).
      destruct child as [|sub].
      * rewrite !walk_entries_file.
        rewrite IH.
        rewrite (IH (if String.eqb (extname (join root name)) ".ts"
                     then [] ++ [join root name] else [])).
        destruct (String.eqb (extname (join root name)) ".ts"); simpl;
          now rewrite <- ?app_assoc.
      * rewrite !walk_entries_dir.
        rewrite IH, (Hchild (join root name) result).
        rewrite (IH (walk join extname (join root name) (Directory sub) [])).
        now rewrite app_assoc.
Qed.

Lemma reaches_cons root name child rest p :
  reaches join root (Directory ((name, child) :: rest)) p <->
  (child = File /\ p = join root name) \/
  (exists sub, child = Directory sub /\
               reaches join (join root name) (Directory sub) p) \/
  reaches join root (Directory rest) p.
Proof.
  split.
  - intros Hr. inversion Hr as [? ? n Hin | ? ? n sub ? Hin Hsub]; subst.
    + destruct Hin as [[= -> ->]|Hin]; [left; auto|].
      right; right. now constructor.
    + destruct Hin as [[= -> ->]|Hin]; [right; left; eauto|].
      right; right. eapply reaches_below; eassumption.
  - intros [[-> ->] | [(sub & -> & Hsub) | Hr]].
    + constructor. now left.
    + eapply reaches_below; [left; reflexivity | exact Hsub].
    + inversion Hr as [? ? n Hin | ? ? n sub ? Hin Hsub]; subst.
      * constructor. now right.
      * eapply reaches_below; [right; exact Hin | exact Hsub].
Qed.

Lemma walk_finds node :
  forall root p,
    In p (walk join extname root node []) <->
    reaches join root node p /\ extname p = ".ts".
Proof.
  induction node as [|entries IHe] using fsnode_induction; intros root p.
  - simpl. split; [tauto | intros [Hr _]; inversion Hr].
  - change (In p (walk_entries join extname root entries []) <->
            reaches join root (Directory entries) p /\ extname p = ".ts").
    induction entries as [|[name child] rest IH].
    + rewrite walk_entries_nil. simpl.
      split; [tauto | intros [Hr _]; inversion Hr; contradiction].
    + apply Forall_cons in IHe as [Hchild Hrest]. simpl in Hchild.
      specialize (IH Hrest). rewrite reaches_cons.
      destruct child as [|sub].
      * rewrite walk_entries_file.
        fold (walk_entries join extname root rest
                (if String.eqb (extname (join root name)) ".ts"
                 then [] ++ [join root name] else [])).
        unfold walk_entries at 1. rewrite walk_app.
        fold (walk_entries join extname root rest []).
        rewrite in_app_iff, IH.
        destruct (String.eqb_spec (extname (join root name)) ".ts") as [E|E];
          simpl; split.
        -- intros [[<-|[]] | [Hr He]]; split; auto.
        -- intros [[[_ ->] | [(sub & [=] & _) | Hr]] He]; auto.
        -- intros [[] | [Hr He]]; split; auto.
        -- intros [[[_ ->] | [(sub & [=] & _) | Hr]] He]; [congruence | auto].
      * rewrite walk_entries_dir.
        unfold walk_entries at 1. rewrite walk_app.
        fold (walk_entries join extname root rest []).
        rewrite in_app_iff, IH, (Hchild (join root name) p).
        split.
        -- intros [[Hr He] | [Hr He]]; split; eauto.
        -- intros [[[[=] _] | [(sub' & [= <-] & Hr) | Hr]] He]; auto.
Qed.
End Walk.
Section Hook.
Variable join : string -> string -> string.
Variable extname : string -> string.

(** X12.  [getProjectTypescriptFiles(filesRoot, result)] only appends to
    [result]: what it returns is [result] followed by what the same call
    finds from an empty array.  A location that does not exist leaves
    [result] as it is, and a location that is a file makes
    [fs.readdirSync] throw. *)
Theorem getProjectTypescriptFiles_appends (filesRoot : string)
    (root : option fsnode) (result : list string) :
  getProjectTypescriptFiles join extname filesRoot root result
    = match getProjectTypescriptFiles join extname filesRoot root [] with
      | Normal found => Normal (result ++ found)
      | Throw e => Throw e
      end /\
  getProjectTypescriptFiles join extname filesRoot None result = Normal result /\
  getProjectTypescriptFiles join extname filesRoot (Some File) result
    = Throw (SystemError "ENOTDIR").
Proof.
  split; [|split; reflexivity].
  destruct root as [[|entries]|]; simpl.
  - reflexivity.
  - f_equal. apply (walk_app join extname (Directory entries)).
  - now rewrite app_nil_r.
Qed.

(** X13.  From a directory, [getProjectTypescriptFiles] returns the paths
    of the files below it, at any depth, whose extension is [.ts], and
    only those: a path is in the result exactly when it is the path of a
    file reached from the directory and [path.extname] of it is [.ts]. *)
Theorem getProjectTypescriptFiles_finds (filesRoot : string)
    (entries : list (string * fsnode)) :
  exists found,
    getProjectTypescriptFiles join extname filesRoot (Some (Directory entries)) []
      = Normal found /\
    forall p, In p found <->
              reaches join filesRoot (Directory entries) p /\ extname p = ".ts".
Proof.
  eexists. split; [reflexivity|].
  intros p. apply (walk_finds join extname (Directory entries)).
Qed.

Section Sources.
Variable node_at : string -> option fsnode.
Variable projectDirectory : string.

Lemma collect_sources_ok (locations : list string) :
  (forall d, In d locations -> node_at (join projectDirectory d) <> Some File) ->
  forall sourceFiles,
    collect_sources join extname node_at projectDirectory locations sourceFiles
    = Normal (sourceFiles ++
              concat (map (fun d => files_under join extname
                                      (join projectDirectory d)
                                      (node_at (join projectDirectory d)))
                          locations)).
Proof.
  induction locations as [|d rest IH]; intros Hdirs sourceFiles.
  - simpl. now rewrite app_nil_r.
  - assert (Hd := Hdirs d (or_introl eq_refl)).
    cbn -[walk].
    destruct (node_at (join projectDirectory d)) as [[|entries]|]; cbn -[walk].
    + congruence.
    + rewrite IH by (intros d' Hin; apply Hdirs; now right).
      rewrite (walk_app join extname (Directory entries)).
      now rewrite <- app_assoc.
    + rewrite IH by (intros d' Hin; apply Hdirs; now right).
      reflexivity.
Qed.

Lemma collect_sources_throws (locations : list string) :
  (exists d, In d locations /\ node_at (join projectDirectory d) = Some File) ->
  forall sourceFiles,
    collect_sources join extname node_at projectDirectory locations sourceFiles
    = Throw (SystemError "ENOTDIR").
Proof.
  induction locations as [|d rest IH]; intros (d' & Hin & Hfile) sourceFiles.
  - destruct Hin.
  - simpl.
    destruct (node_at (join projectDirectory d)) as [[|entries]|] eqn:E; simpl.
    + reflexivity.
    + destruct Hin as [->|Hin]; [congruence|]. apply IH; eauto.
    + destruct Hin as [->|Hin]; [congruence|]. apply IH; eauto.
Qed.
End Sources.
End Hook.

(** X14.  [composeCompileCommand] searches the locations of
    [configuration.filesRoot], split at the semicolons, or [www] and
    [merges] when there is no configuration, no [filesRoot] or an empty
    one, each joined to the project directory.  When none of them is a
    file, the command is [tsc ], the text of the options, and a space and
    a path for every TypeScript file found, location after location in the
    order given: collecting into the one array [sourceFiles] amounts to
    putting the separate searches end to end.  When one of them is a file
    the call throws. *)
Theorem composeCompileCommand_spec {V : Type}
    (join : string -> string -> string) (extname : string -> string)
    (is_empty_string : V -> bool) (to_string : V -> string)
    (node_at : string -> option fsnode)
    (configuration : option (Configuration V)) (projectDirectory : string) :
  let locations := split ";" (sourceLocations_of configuration) in
  ((forall d, In d locations -> node_at (join projectDirectory d) <> Some File) ->
   composeCompileCommand join extname is_empty_string to_string node_at
     configuration projectDirectory
   = Normal ("tsc " +:+ compilerOptions_of is_empty_string to_string configuration
               +:+ filesArgument_of
                     (concat (map (fun d => files_under join extname
                                              (join projectDirectory d)
                                              (node_at (join projectDirectory d)))
                                  locations)))) /\
  ((exists d, In d locations /\ node_at (join projectDirectory d) = Some File) ->
   composeCompileCommand join extname is_empty_string to_string node_at
     configuration projectDirectory
   = Throw (SystemError "ENOTDIR")) /\
  ((configuration = None \/
    exists c, configuration = Some c /\
              (filesRoot c = None \/ filesRoot c = Some "")) ->
   locations = ["www"; "merges"]).
Proof.
  intros locations. split; [|split].
  - intros Hdirs. unfold composeCompileCommand. fold locations.
    now rewrite (collect_sources_ok join extname node_at projectDirectory
                   locations Hdirs []).
  - intros Hfile. unfold composeCompileCommand. fold locations.
    now rewrite (collect_sources_throws join extname node_at projectDirectory
                   locations Hfile []).
  - unfold locations, sourceLocations_of.
    intros [-> | (c & -> & [-> | ->])]; reflexivity.
Qed.

Lemma composeCompileCommand_spec_witness :
  composeCompileCommand sample_join sample_extname (String.eqb "") id
    sample_node_at
    (Some (mkConfiguration (Some [("target", "ES5"); ("sourcemap", "")]) None))
    "proj"
  = Normal "tsc  --target ES5 --sourcemap proj/www/js/index.ts proj/merges/android/fix.ts".
Proof.
  refine (proj1 (composeCompileCommand_spec sample_join sample_extname
                   (String.eqb "") id sample_node_at
                   (Some (mkConfiguration
                            (Some [("target", "ES5"); ("sourcemap", "")]) None))
                   "proj") _).
  intros d [<-|[<-|[]]]; discriminate.
Defined.

Example getProjectTypescriptFiles_sample :
  getProjectTypescriptFiles sample_join sample_extname "proj/www"
    (Some sample_www) ["lib.d.ts"]
  = Normal ["lib.d.ts"; "proj/www/js/index.ts"].
Proof. reflexivity. Qed.
End TSCInvokerFacts.
